(** * andy-ai: the rate limiter, the expiring cache and the completion client

    A shallow embedding of [utils/rate_limit.py], [utils/cache.py],
    [services/llm_service.py] and [cogs/message_handler.py], with the
    properties of the specification stated over it.

    Conventions of the embedding.
    - A timestamp returned by [time.time()] is a rational number of seconds
      ([Q]); every function that reads the clock takes the value read as an
      argument, one argument per read, in the order of the reads (the
      rate limit check of the handler takes them as a function of the
      number of the read). The completion client and the handler read the
      clock of their world, which moves with the requests and the sleeps.
    - A [dict] keyed by strings is a [gmap string _]; a [defaultdict] is a
      [gmap] whose subscript access inserts the default when the key is
      missing.
    - A Python [str] is a [string], one character per code point below 256.
    - A function that can raise returns a sum, the exception on the left.
    - Timestamps are handled as exact rationals; the one float the code
      computes from a configured integer, [60.0 / calls_per_minute], is
      computed as an IEEE 754 binary64 number. *)

From Stdlib Require Import QArith Qminmax Lqa ZArith Lia Bool List Ascii.
From Stdlib Require Import SpecFloat.
From stdpp Require Import base option list gmap strings pretty.
Import ListNotations.

(** ** Rationals as timestamps *)

(** [a < b] on timestamps, as a boolean. *)
Definition Qltb (a b : Q) : bool := negb (Qle_bool b a).

(** Python's [max(a, b)]: the first argument unless the second is larger. *)
Definition py_max (a b : Q) : Q := if Qltb a b then b else a.

(** Python's [min] over a non-empty list [m :: rest]: the first of the
    smallest items. *)
Definition py_min (m : Q) (rest : list Q) : Q :=
  fold_left (fun acc x => if Qltb x acc then x else acc) rest m.

(** ** Python floats *)

(** A Python [float] is an IEEE 754 binary64 number: 53 bits of precision,
    exponents up to 1024. *)
Definition float : Type := spec_float.

(** [float(n)] for an [int]: the [int] rounded to the nearest float, ties
    to even. The infinity stands for the conversion that raises
    [OverflowError], that of an [int] too large for a float. *)
Definition float_of_int (n : Z) : float := binary_normalize 53 1024 n 0 false.

(** The least [int] that the conversion cannot hold, [2 ** 1024 - 2 ** 970]:
    the least that rounds to [2 ** 1024] ([FloatFacts.float_of_int_cases]). *)
Definition float_max_int : Z := 2 ^ 1024 - 2 ^ 970.

(** [x / y] on floats. *)
Definition float_div (x y : float) : float := SFdiv 53 1024 x y.

(** The rational number a finite float is; 0 for what is not a number. *)
Definition Q_of_float (x : float) : Q :=
  match x with
  | S754_finite s m e =>
      ((if s then -1 else 1) * inject_Z (Zpos m) * 2 ^ e)%Q
  | _ => 0%Q
  end.

(** ** utils/rate_limit.py *)

Module RateLimit.

(** The exceptions [RateLimiter.__init__] can raise. *)
Inductive exn : Type := ZeroDivisionError | OverflowError.

Record RateLimiter : Type := mkRateLimiter {
  calls_per_minute : Z;
  min_interval : Q;
  _last_call : gmap string Q;
  _call_times : gmap string (list Q)
}.

(** [RateLimiter.__init__]. The division [60.0 / calls_per_minute] first
    converts the [int] to a float, which raises [OverflowError] when the
    [int] is too large for one; it then raises [ZeroDivisionError] when the
    divisor is zero. [min_interval] is the quotient as a float, given here
    by the rational it is. *)
Definition init (cpm : Z) : exn + RateLimiter :=
  match float_of_int cpm with
  | S754_infinity _ => inl OverflowError
  | S754_zero _ => inl ZeroDivisionError
  | divisor =>
      inr {| calls_per_minute := cpm;
             min_interval := Q_of_float (float_div (float_of_int 60) divisor);
             _last_call := ∅;
             _call_times := ∅ |}
  end.

(** [[t for t in ts if t > cutoff]] *)
Definition newer_than (cutoff : Q) (ts : list Q) : list Q :=
  List.filter (Qltb cutoff) ts.

(** [RateLimiter.is_allowed], with [now] the value of [time.time()]. *)
Definition is_allowed (now : Q) (key : string) (rl : RateLimiter)
  : bool * RateLimiter :=
  let cutoff := (now - 60)%Q in
  (* Clean old entries *)
  let cleaned :=
    match _call_times rl !! key with
    | Some ts => <[key := newer_than cutoff ts]> (_call_times rl)
    | None => _call_times rl
    end in
  (* self._call_times[key]: a defaultdict creates the missing entry *)
  let ts := default [] (cleaned !! key) in
  let touched := <[key := ts]> cleaned in
  (* Check if limit exceeded *)
  if (calls_per_minute rl <=? Z.of_nat (length ts))%Z then
    (false, {| calls_per_minute := calls_per_minute rl;
               min_interval := min_interval rl;
               _last_call := _last_call rl;
               _call_times := touched |})
  else
    (true, {| calls_per_minute := calls_per_minute rl;
              min_interval := min_interval rl;
              _last_call := <[key := now]> (_last_call rl);
              _call_times := <[key := ts ++ [now]]> touched |}).

(** [RateLimiter.get_cooldown_seconds]. The clock is read three times: by
    [is_allowed] ([now1]), for the cutoff ([now2]) and for the result
    ([now3]). *)
Definition get_cooldown_seconds (now1 now2 now3 : Q) (key : string)
  (rl : RateLimiter) : Q * RateLimiter :=
  let '(allowed, rl1) := is_allowed now1 key rl in
  if allowed then (0%Q, rl1)
  else
    let cutoff := (now2 - 60)%Q in
    (* self._call_times.get(key, []) creates nothing *)
    let valid_times := newer_than cutoff (default [] (_call_times rl1 !! key)) in
    match valid_times with
    | [] => (0%Q, rl1)
    | t :: rest =>
        let oldest_call := py_min t rest in
        (py_max 0 (60 - (now3 - oldest_call))%Q, rl1)
    end.

(** Successive calls of [is_allowed] for one key, one clock value each. *)
Fixpoint calls (nows : list Q) (key : string) (rl : RateLimiter)
  : list bool * RateLimiter :=
  match nows with
  | [] => ([], rl)
  | now :: rest =>
      let '(b, rl1) := is_allowed now key rl in
      let '(bs, rl2) := calls rest key rl1 in
      (b :: bs, rl2)
  end.

(** The sequence recorded for a key; a missing key counts as empty. *)
Definition recorded (key : string) (rl : RateLimiter) : list Q :=
  default [] (_call_times rl !! key).

(** The limiter [rl] after a call that only pruned the sequence of [key]. *)
Definition pruned (now : Q) (key : string) (rl : RateLimiter) : RateLimiter :=
  {| calls_per_minute := calls_per_minute rl;
     min_interval := min_interval rl;
     _last_call := _last_call rl;
     _call_times := alter (newer_than (now - 60)) key (_call_times rl) |}.

(** The clock values of calls made within one window of 60 seconds, the
    window that opens at [w]. *)
Definition in_window (w : Q) (nows : list Q) : Prop :=
  Forall (fun t => (w < t)%Q /\ (t <= w + 60)%Q) nows.

(** No recorded timestamp of [key] lies after [now]. *)
Definition no_future (now : Q) (key : string) (rl : RateLimiter) : Prop :=
  Forall (fun t => (t <= now)%Q) (recorded key rl).

(** Calls of [is_allowed] for any keys, each given with the clock value it
    reads. *)
Definition run (cs : list (Q * string)) (rl : RateLimiter) : RateLimiter :=
  fold_left (fun acc c => snd (is_allowed (fst c) (snd c) acc)) cs rl.

(** The clock values of [cs] do not run backwards, and none is before [t]. *)
Fixpoint nondecreasing (t : Q) (cs : list (Q * string)) : Prop :=
  match cs with
  | [] => True
  | c :: rest => (t <= fst c)%Q /\ nondecreasing (fst c) rest
  end.

(** The clock value of the last call of [cs], [t] when there is none. *)
Fixpoint final_clock (t : Q) (cs : list (Q * string)) : Q :=
  match cs with
  | [] => t
  | c :: rest => final_clock (fst c) rest
  end.

End RateLimit.

(** ** utils/cache.py *)

Module Cache.

Section WithValue.
Context {T : Type}.

Record CacheEntry : Type := mkCacheEntry {
  value : T;
  expires_at : Q
}.

(** [CacheEntry.is_expired]: [time.time() > self.expires_at]. *)
Definition is_expired (now : Q) (entry : CacheEntry) : bool :=
  Qltb (expires_at entry) now.

Record SimpleCache : Type := mkSimpleCache {
  ttl_seconds : Z;
  _cache : gmap string CacheEntry
}.

(** [SimpleCache.__init__] *)
Definition init (ttl : Z) : SimpleCache :=
  {| ttl_seconds := ttl; _cache := ∅ |}.

(** [SimpleCache.get]: the value or [None], and the cache it leaves. *)
Definition get (now : Q) (key : string) (c : SimpleCache)
  : option T * SimpleCache :=
  match _cache c !! key with
  | None => (None, c)
  | Some entry =>
      if is_expired now entry then
        (None, {| ttl_seconds := ttl_seconds c;
                  _cache := delete key (_cache c) |})
      else (Some (value entry), c)
  end.

(** [SimpleCache.set] *)
Definition set (now : Q) (key : string) (v : T) (c : SimpleCache)
  : SimpleCache :=
  let expires := (now + inject_Z (ttl_seconds c))%Q in
  {| ttl_seconds := ttl_seconds c;
     _cache := <[key := {| value := v; expires_at := expires |}]> (_cache c) |}.

(** [SimpleCache.clear] *)
Definition clear (c : SimpleCache) : SimpleCache :=
  {| ttl_seconds := ttl_seconds c; _cache := ∅ |}.

(** [SimpleCache.size] *)
Definition size (c : SimpleCache) : nat := base.size (_cache c).

(** The operations a client can perform, each with the clock value it
    reads (if it reads one). *)
Inductive op : Type :=
  | OpGet (now : Q) (key : string)
  | OpSet (now : Q) (key : string) (v : T)
  | OpClear
  | OpSize.

(** One operation: what a [get] returned, and the cache left. *)
Definition step (o : op) (c : SimpleCache) : option T * SimpleCache :=
  match o with
  | OpGet now key => get now key c
  | OpSet now key v => (None, set now key v c)
  | OpClear => (None, clear c)
  | OpSize => (None, c)
  end.

Definition run (ops : list op) (c : SimpleCache) : SimpleCache :=
  fold_left (fun acc o => snd (step o acc)) ops c.


End WithValue.

Arguments CacheEntry : clear implicits.
Arguments SimpleCache : clear implicits.
Arguments op : clear implicits.

End Cache.

(** ** config/settings.py *)

Module Config.

Definition LLM_MAX_RETRIES : Z := 3.
Definition MAX_MESSAGE_LENGTH : Z := 1900.
Definition CACHING_ENABLED : bool := true.
Definition CACHE_TTL_SECONDS : Z := 3600.
Definition SYSTEM_PROMPT : string :=
  "You are Andy, a robotic helper with the goal of providing one-to-two sentence responses to questions. "
  +:+ "If you are asked something that you cannot answer within a reasonable conciseness, ask the user to ask a different question. "
  +:+ "You can make jokes, or make fun of users' queries.".

Definition TYPING_INDICATOR_ENABLED : bool := true.
Definition RATE_LIMIT_ENABLED : bool := true.
Definition RATE_LIMIT_CALLS_PER_USER_PER_MINUTE : Z := 5.
Definition RATE_LIMIT_CALLS_PER_GUILD_PER_MINUTE : Z := 20.

End Config.

(** ** Python string operations *)

Module Str.

(** [c.isspace()] for a code point below 256. *)
Definition is_space (c : ascii) : bool :=
  let n := N_of_ascii c in
  ((9 <=? n) && (n <=? 13) || (28 <=? n) && (n <=? 32)
   || (n =? 133) || (n =? 160))%N.

(** [s.lstrip()] *)
Fixpoint lstrip (s : string) : string :=
  match s with
  | EmptyString => EmptyString
  | String c rest => if is_space c then lstrip rest else s
  end.

(** [s.rstrip()] *)
Fixpoint rstrip (s : string) : string :=
  match s with
  | EmptyString => EmptyString
  | String c rest =>
      match rstrip rest with
      | EmptyString => if is_space c then EmptyString else String c EmptyString
      | kept => String c kept
      end
  end.

(** [s.strip()] *)
Definition strip (s : string) : string := rstrip (lstrip s).

(** Every character of [s] is white space. *)
Fixpoint all_space (s : string) : bool :=
  match s with
  | EmptyString => true
  | String c rest => is_space c && all_space rest
  end.

(** [needle in hay] *)
Fixpoint contains (needle hay : string) : bool :=
  String.prefix needle hay ||
  match hay with
  | EmptyString => false
  | String _ rest => contains needle rest
  end.

(** The first [n] characters of [s]. *)
Fixpoint take (n : nat) (s : string) : string :=
  match n, s with
  | S n', String c rest => String c (take n' rest)
  | _, _ => EmptyString
  end.

(** [s[:stop]]: a negative [stop] counts from the end. *)
Definition slice_to (stop : Z) (s : string) : string :=
  if (stop <? 0)%Z
  then take (Z.to_nat (Z.of_nat (String.length s) + stop)) s
  else take (Z.to_nat stop) s.

(** The line feed character. *)
Definition nl : string := String (ascii_of_N 10) EmptyString.

(** The character [c] does not occur in [s]. *)
Fixpoint lacks (c : ascii) (s : string) : bool :=
  match s with
  | EmptyString => true
  | String d rest => negb (Ascii.eqb d c) && lacks c rest
  end.

(** [s.replace(old, new)] for a non-empty [old], scanning [s] from the
    left: [skip] counts the characters of [s] that still belong to the
    occurrence of [old] found last. *)
Fixpoint replace_from (old new : string) (skip : nat) (s : string) : string :=
  match s with
  | EmptyString => EmptyString
  | String c rest =>
      match skip with
      | S k => replace_from old new k rest
      | O =>
          if String.prefix old s
          then new +:+ replace_from old new (String.length old - 1) rest
          else String c (replace_from old new 0 rest)
      end
  end.

(** [new] after every character of [s]. *)
Fixpoint followed_by (new s : string) : string :=
  match s with
  | EmptyString => EmptyString
  | String c rest => String c (new +:+ followed_by new rest)
  end.

(** [s.replace(old, new)]: every occurrence of [old], found from the left
    and not overlapping the one before, becomes [new]; an empty [old]
    occurs before every character and at the end. *)
Definition replace (old new s : string) : string :=
  match old with
  | EmptyString => new +:+ followed_by new s
  | String _ _ => replace_from old new 0 s
  end.

End Str.

(** ** services/llm_service.py *)

Module LLM.

(** The exceptions [ask] raises. *)
Inductive exn : Type :=
  | ValueError (msg : string)
  | RuntimeError (msg : string).

(** What a request to the provider can raise, by the [except] clause that
    catches it: the clauses are tried in order, so [APIConnectionError]
    stands for a connection error that is not a timeout, [APIError] for a
    provider error that is neither, and [OtherException] for any other
    [Exception]. Each carries [str(e)]. *)
Inductive api_exn : Type :=
  | APITimeoutError (msg : string)
  | APIConnectionError (msg : string)
  | APIError (msg : string)
  | OtherException (msg : string).

(** The outcome of [client.chat.completions.create]: a response, given by
    the [message.content] of each of its choices ([None] when the message
    has no content), or an exception. *)
Inductive reply : Type :=
  | Response (choices : list (option string))
  | Raises (e : api_exn).

(** One request: how long it took and how it ended. *)
Record call : Type := mkCall {
  latency : Q;
  outcome : reply
}.

(** What lies outside the service: the clock, the number of requests sent
    to the provider so far, and the arguments of the [time.sleep] calls. *)
Record World : Type := mkWorld {
  clock : Q;
  requests : nat;
  sleeps : list Q
}.

Record LLMService : Type := mkLLMService {
  max_retries : Z;
  cache : option (Cache.SimpleCache string)
}.

(** [LLMService.__init__] *)
Definition init : LLMService :=
  {| max_retries := Config.LLM_MAX_RETRIES;
     cache := if Config.CACHING_ENABLED
              then Some (Cache.init Config.CACHE_TTL_SECONDS) else None |}.

(** [bool(s)] for a string. *)
Definition truthy (s : string) : bool :=
  match s with
  | EmptyString => false
  | String _ _ => true
  end.

(** [str(last_error)], where [last_error] starts as [None]. *)
Definition str_last (last_error : option string) : string :=
  default "None" last_error.

(** [time.sleep(secs)] *)
Definition sleep (secs : Q) (w : World) : World :=
  {| clock := (clock w + secs)%Q;
     requests := requests w;
     sleeps := sleeps w ++ [secs] |}.

(** [if attempt < self.max_retries: time.sleep(secs)] *)
Definition wait_unless_last (s : LLMService) (attempt : Z) (secs : Q)
  (w : World) : World :=
  if (attempt <? max_retries s)%Z then sleep secs w else w.

(** [response.choices[0].message.content.strip()], or what the request or
    this expression raised. *)
Definition output_of (r : reply) : api_exn + string :=
  match r with
  | Raises e => inl e
  | Response [] => inl (OtherException "list index out of range")
  | Response (None :: _) =>
      inl (OtherException "'NoneType' object has no attribute 'strip'")
  | Response (Some content :: _) => inr (Str.strip content)
  end.

(** [if self.cache: self.cache.set(cache_key, output)] *)
Definition store (now : Q) (cache_key output : string) (s : LLMService)
  : LLMService :=
  match cache s with
  | Some ch =>
      {| max_retries := max_retries s;
         cache := Some (Cache.set now cache_key output ch) |}
  | None => s
  end.

Section WithProvider.

(** Python's [hash] on strings. *)
Variable hash : string -> Z.

(** The provider: the outcome of the request number [n] (counted from 0
    over the life of the process) for a system prompt and a user prompt. *)
Variable provider : nat -> string -> string -> call.

(** [LLMService._build_cache_key] *)
Definition _build_cache_key (system_prompt user_prompt : string) : string :=
  pretty (hash system_prompt) +:+ ":" +:+ pretty (hash user_prompt).

(** The retry loop of [ask]: [todo] iterations are left, the next one
    numbered [attempt]. *)
Fixpoint attempts (todo : nat) (attempt : Z) (last_error : option string)
  (system_prompt prompt : string) (s : LLMService) (w : World)
  : (exn + string) * LLMService * World :=
  match todo with
  | O =>
      (* All retries exhausted *)
      (inl (RuntimeError ("Failed to get LLM response after "
                          +:+ pretty (max_retries s) +:+ " attempts: "
                          +:+ str_last last_error)), s, w)
  | S todo' =>
      let c := provider (requests w) system_prompt prompt in
      let w1 := {| clock := (clock w + latency c)%Q;
                   requests := S (requests w);
                   sleeps := sleeps w |} in
      match output_of (outcome c) with
      | inr output =>
          (* Cache successful response *)
          (inr output,
           store (clock w1) (_build_cache_key system_prompt prompt) output s,
           w1)
      | inl (APITimeoutError msg) =>
          attempts todo' (attempt + 1) (Some msg) system_prompt prompt s
            (wait_unless_last s attempt (inject_Z (2 ^ attempt)) w1)
      | inl (APIConnectionError msg) =>
          attempts todo' (attempt + 1) (Some msg) system_prompt prompt s
            (wait_unless_last s attempt (inject_Z (2 ^ attempt)) w1)
      | inl (APIError msg) =>
          (* Don't retry on authentication/rate limit errors immediately *)
          if Str.contains "401" msg || Str.contains "403" msg then
            (inl (RuntimeError ("Authentication error: " +:+ msg)), s, w1)
          else
            attempts todo' (attempt + 1) (Some msg) system_prompt prompt s
              (wait_unless_last s attempt (inject_Z (2 ^ attempt)) w1)
      | inl (OtherException msg) =>
          attempts todo' (attempt + 1) (Some msg) system_prompt prompt s
            (wait_unless_last s attempt 1 w1)
      end
  end.

(** [for attempt in range(1, self.max_retries + 1)] and what follows it. *)
Definition retry_loop (system_prompt prompt : string) (s : LLMService)
  (w : World) : (exn + string) * LLMService * World :=
  attempts (Z.to_nat (max_retries s)) 1 None system_prompt prompt s w.

(** [LLMService.ask]; [system_prompt] is [None] when the caller leaves it
    out. *)
Definition ask (prompt : string) (system_prompt : option string)
  (s : LLMService) (w : World) : (exn + string) * LLMService * World :=
  if negb (truthy prompt) || negb (truthy (Str.strip prompt)) then
    (inl (ValueError "Prompt cannot be empty"), s, w)
  else
    let system_prompt :=
      match system_prompt with
      | Some sp => if truthy sp then sp else Config.SYSTEM_PROMPT
      | None => Config.SYSTEM_PROMPT
      end in
    (* Check cache first *)
    match cache s with
    | Some ch =>
        let cache_key := _build_cache_key system_prompt prompt in
        let '(cached_response, ch1) := Cache.get (clock w) cache_key ch in
        let s1 := {| max_retries := max_retries s; cache := Some ch1 |} in
        match cached_response with
        | Some v =>
            if truthy v then (inr v, s1, w)
            else retry_loop system_prompt prompt s1 w
        | None => retry_loop system_prompt prompt s1 w
        end
    | None => retry_loop system_prompt prompt s w
    end.

(** [LLMService.clear_cache] *)
Definition clear_cache (s : LLMService) : LLMService :=
  match cache s with
  | Some ch => {| max_retries := max_retries s; cache := Some (Cache.clear ch) |}
  | None => s
  end.

(** A prompt that [ask] accepts. *)
Definition accepted (prompt : string) : bool :=
  truthy prompt && truthy (Str.strip prompt).

(** [system_prompt or Config.SYSTEM_PROMPT] *)
Definition effective (system_prompt : option string) : string :=
  match system_prompt with
  | Some sp => if truthy sp then sp else Config.SYSTEM_PROMPT
  | None => Config.SYSTEM_PROMPT
  end.

(** The cache check of [ask]: the value served, if any, and the service
    after the lookup. *)
Definition cache_check (prompt system_prompt : string) (s : LLMService)
  (w : World) : option string * LLMService :=
  match cache s with
  | Some ch =>
      let '(cached_response, ch1) :=
        Cache.get (clock w) (_build_cache_key system_prompt prompt) ch in
      (match cached_response with
       | Some v => if truthy v then Some v else None
       | None => None
       end,
       {| max_retries := max_retries s; cache := Some ch1 |})
  | None => (None, s)
  end.

End WithProvider.

(** The three components of what [ask] yields. *)
Definition result {A B C : Type} (r : A * B * C) : A := fst (fst r).
Definition service {A B C : Type} (r : A * B * C) : B := snd (fst r).
Definition world {A B C : Type} (r : A * B * C) : C := snd r.




End LLM.

(** ** Stand-ins for the provider, as the tests mock it *)

Module Mock.

(** A [hash] on strings. *)
Definition hash (s : string) : Z := Z.of_nat (String.length s).

(** A provider that ends every request the same way, at once. *)
Definition always (r : LLM.reply) : nat -> string -> string -> LLM.call :=
  fun _ _ _ => {| LLM.latency := 0; LLM.outcome := r |}.


(** A text of [n] characters. *)
Fixpoint filler (n : nat) : string :=
  match n with
  | O => EmptyString
  | S n' => String "a" (filler n')
  end.

(** A fresh world. *)
Definition start : LLM.World :=
  {| LLM.clock := 0; LLM.requests := 0; LLM.sleeps := [] |}.

End Mock.

(** ** cogs/message_handler.py *)

Module MessageHandler.

(** The text [_send_response] sends for [response]: cut when it is longer
    than [max_len] ([Config.MAX_MESSAGE_LENGTH]). *)
Definition truncated (max_len : Z) (response : string) : string :=
  if (max_len <? Z.of_nat (String.length response))%Z
  then Str.slice_to (max_len - 4) response +:+ "..."
  else response.

(** [MessageHandlerCog._send_response]: the messages of the channel after
    the call, [mention] being [message.author.mention]. *)
Definition _send_response (max_len : Z) (mention response : string)
  (channel : list string) : list string :=
  channel ++ [mention +:+ Str.nl +:+ truncated max_len response].

(** The settings of [Config] the handler reads. *)
Record Settings : Type := mkSettings {
  max_message_length : Z;
  rate_limit_enabled : bool;
  typing_indicator_enabled : bool
}.

(** The settings as [config/settings.py] has them. *)
Definition configured : Settings :=
  {| max_message_length := Config.MAX_MESSAGE_LENGTH;
     rate_limit_enabled := Config.RATE_LIMIT_ENABLED;
     typing_indicator_enabled := Config.TYPING_INDICATOR_ENABLED |}.

(** What the handler reads of a [discord.Message]. *)
Record Message : Type := mkMessage {
  from_bot : bool;            (* message.author == self.bot.user *)
  mentions_bot : bool;        (* self.bot.user in message.mentions *)
  content : string;
  author_id : Z;
  author_mention : string;    (* message.author.mention *)
  guild : option Z            (* message.guild.id; None in a direct message *)
}.

(** The state of a [MessageHandlerCog]. *)
Record Cog : Type := mkCog {
  user_rate_limiter : RateLimit.RateLimiter;
  guild_rate_limiter : RateLimit.RateLimiter;
  llm_service : LLM.LLMService
}.

(** [MessageHandlerCog.__init__], given the two limits of [Config]: it
    fails when a limiter cannot be built. The service, built first, is
    taken to be built as [LLM.init] says. *)
Definition new_cog (per_user per_guild : Z) : RateLimit.exn + Cog :=
  match RateLimit.init per_user with
  | inl e => inl e
  | inr u =>
      match RateLimit.init per_guild with
      | inl e => inl e
      | inr g =>
          inr {| user_rate_limiter := u;
                 guild_rate_limiter := g;
                 llm_service := LLM.init |}
      end
  end.

(** What lies outside the cog: the world of the completion client, the
    messages delivered to the channel, and the number of calls of
    [channel.send] so far. *)
Record Outside : Type := mkOutside {
  net : LLM.World;
  channel : list string;
  sends : nat
}.

(** [MessageHandlerCog._extract_prompt] *)
Definition _extract_prompt (content : string) (bot_id : Z) : string :=
  Str.strip
    (Str.replace ("<@!" +:+ pretty bot_id +:+ ">") ""
       (Str.replace ("<@" +:+ pretty bot_id +:+ ">") "" content)).

(** The two ways a mention of the bot is written. *)
Definition mention (bot_id : Z) : string := "<@" +:+ pretty bot_id +:+ ">".
Definition nick_mention (bot_id : Z) : string := "<@!" +:+ pretty bot_id +:+ ">".

(** [MessageHandlerCog._check_rate_limits]: the answer and the two
    limiters after the check. [clk n] is the value of the clock read
    number [n] of the call; the cooldown is computed for the log only. *)
Definition _check_rate_limits (enabled : bool) (clk : nat -> Q)
  (user_id guild_id : string)
  (user_rl guild_rl : RateLimit.RateLimiter)
  : bool * RateLimit.RateLimiter * RateLimit.RateLimiter :=
  if negb enabled then (true, user_rl, guild_rl)
  else
    (* Check user rate limit *)
    let '(user_ok, u1) := RateLimit.is_allowed (clk 0%nat) user_id user_rl in
    if negb user_ok then
      let '(_, u2) :=
        RateLimit.get_cooldown_seconds (clk 1%nat) (clk 2%nat) (clk 3%nat)
          user_id u1 in
      (false, u2, guild_rl)
    else
      (* Check guild rate limit *)
      let '(guild_ok, g1) := RateLimit.is_allowed (clk 1%nat) guild_id guild_rl in
      if negb guild_ok then
        let '(_, g2) :=
          RateLimit.get_cooldown_seconds (clk 2%nat) (clk 3%nat) (clk 4%nat)
            guild_id g1 in
        (false, u1, g2)
      else (true, u1, g1).

(** [error[: Config.MAX_MESSAGE_LENGTH - 50]] of [_send_error_message]. *)
Definition error_display (max_len : Z) (error : string) : string :=
  Str.slice_to (max_len - 50) error.

(** [str(e)] for an exception of [ask]. *)
Definition str_exn (e : LLM.exn) : string :=
  match e with
  | LLM.ValueError msg => msg
  | LLM.RuntimeError msg => msg
  end.

Section WithOutside.

(** [self.bot.user.id] *)
Variable bot_id : Z.

(** The two pieces of text of the handler that hold characters beyond code
    point 255: the sign after "I am online " in the greeting, and the sign
    before " Error: " in the error notice. *)
Variable online_sign error_sign : string.

(** [channel.send] and [channel.typing()] can raise: [send_fails n text] is
    [str(e)] of the exception raised by the call number [n] of
    [channel.send], made with [text], or [None] when it delivers;
    [typing_fails w] likewise for entering [channel.typing()]. *)
Variable send_fails : nat -> string -> option string.
Variable typing_fails : LLM.World -> option string.

Variable hash : string -> Z.
Variable provider : nat -> string -> string -> LLM.call.
Variable cfg : Settings.

(** [await message.channel.send(text)]: the exception raised, if any. *)
Definition channel_send (text : string) (o : Outside)
  : option string * Outside :=
  match send_fails (sends o) text with
  | Some err =>
      (Some err,
       {| net := net o; channel := channel o; sends := S (sends o) |})
  | None =>
      (None,
       {| net := net o; channel := channel o ++ [text];
          sends := S (sends o) |})
  end.

(** The greeting sent to a mention without a prompt. *)
Definition greeting (m : Message) : string :=
  "Hello " +:+ author_mention m +:+ "! I am online " +:+ online_sign
  +:+ Str.nl +:+ "Ask me anything.".

(** The text [_send_response] hands to [channel.send]. *)
Definition response_text (m : Message) (response : string) : string :=
  author_mention m +:+ Str.nl
  +:+ truncated (max_message_length cfg) response.

(** The text [_send_error_message] hands to [channel.send]. *)
Definition error_text (m : Message) (error : string) : string :=
  author_mention m +:+ Str.nl +:+ error_sign +:+ " Error: "
  +:+ error_display (max_message_length cfg) error.

(** [MessageHandlerCog._handle_mentioned_message]: [str(e)] of the
    exception it raises, if any, the cog and the outside it leaves. Every
    clock read of the rate limit check returns the clock of the world. *)
Definition _handle_mentioned_message (m : Message) (cog : Cog) (o : Outside)
  : option string * Cog * Outside :=
  (* Extract prompt by removing bot mention *)
  let cleaned_prompt := _extract_prompt (content m) bot_id in
  if negb (LLM.truthy cleaned_prompt) then
    let '(err, o1) := channel_send (greeting m) o in (err, cog, o1)
  else
    (* Check rate limits *)
    let user_id := pretty (author_id m) in
    let guild_id :=
      match guild m with
      | Some g => pretty g
      | None => "dm"
      end in
    let '(allowed, u1, g1) :=
      _check_rate_limits (rate_limit_enabled cfg)
        (fun _ => LLM.clock (net o)) user_id guild_id
        (user_rate_limiter cog) (guild_rate_limiter cog) in
    let cog1 := {| user_rate_limiter := u1;
                   guild_rate_limiter := g1;
                   llm_service := llm_service cog |} in
    if negb allowed then (None, cog1, o)
    else
      (* Show typing indicator *)
      match (if typing_indicator_enabled cfg then typing_fails (net o)
             else None) with
      | Some err => (Some err, cog1, o)
      | None =>
          let '(res, svc, w1) :=
            LLM.ask hash provider cleaned_prompt None (llm_service cog)
              (net o) in
          let cog2 := {| user_rate_limiter := u1;
                         guild_rate_limiter := g1;
                         llm_service := svc |} in
          let o1 := {| net := w1; channel := channel o; sends := sends o |} in
          match res with
          | inl e => (Some (str_exn e), cog2, o1)
          | inr response =>
              (* Send response *)
              let '(err, o2) := channel_send (response_text m response) o1 in
              (err, cog2, o2)
          end
      end.

(** [MessageHandlerCog._send_error_message]: an exception of
    [channel.send] is logged and goes no further. *)
Definition _send_error_message (m : Message) (error : string) (o : Outside)
  : Outside :=
  snd (channel_send (error_text m error) o).

(** [MessageHandlerCog.on_message] *)
Definition on_message (m : Message) (cog : Cog) (o : Outside)
  : Cog * Outside :=
  (* Ignore bot's own messages *)
  if from_bot m then (cog, o)
  (* Check if bot was mentioned *)
  else if negb (mentions_bot m) then (cog, o)
  else
    let '(err, cog1, o1) := _handle_mentioned_message m cog o in
    match err with
    | None => (cog1, o1)
    | Some e => (cog1, _send_error_message m e o1)
    end.

End WithOutside.

(** The key of the guild limiter for a message. *)
Definition guild_key (m : Message) : string :=
  match guild m with
  | Some g => pretty g
  | None => "dm"
  end.

(** The rate limit check [_handle_mentioned_message] makes for a message. *)
Definition admission (cfg : Settings) (m : Message) (cog : Cog) (o : Outside)
  : bool * RateLimit.RateLimiter * RateLimit.RateLimiter :=
  _check_rate_limits (rate_limit_enabled cfg)
    (fun _ => LLM.clock (net o)) (pretty (author_id m)) (guild_key m)
    (user_rate_limiter cog) (guild_rate_limiter cog).

(** Entering the typing indicator, when it is enabled: the exception
    raised, if any. *)
Definition typing (typing_fails : LLM.World -> option string)
  (cfg : Settings) (o : Outside) : option string :=
  if typing_indicator_enabled cfg then typing_fails (net o) else None.

End MessageHandler.

(** ** Stand-ins for the messaging platform *)

Module MockBot.

(** A channel on which every send delivers, and a typing indicator that
    never fails. *)
Definition delivers : nat -> string -> option string := fun _ _ => None.
Definition typing_ok : LLM.World -> option string := fun _ => None.

(** The bot is user 42; user 7 writes to it in a direct message. *)
Definition bot_id : Z := 42.

Definition asks (text : string) : MessageHandler.Message :=
  {| MessageHandler.from_bot := false;
     MessageHandler.mentions_bot := true;
     MessageHandler.content := text;
     MessageHandler.author_id := 7;
     MessageHandler.author_mention := "<@7>";
     MessageHandler.guild := None |}.

(** A limiter with the given limit and the given timestamps recorded for
    user 7. *)
Definition limiter (limit : Z) (recorded : list Q) : RateLimit.RateLimiter :=
  {| RateLimit.calls_per_minute := limit;
     RateLimit.min_interval := (60 / inject_Z limit)%Q;
     RateLimit._last_call := ∅;
     RateLimit._call_times := {[ "7" := recorded ]} |}.

(** A cog whose user limiter allows one call a minute. *)
Definition cog (recorded : list Q) : MessageHandler.Cog :=
  {| MessageHandler.user_rate_limiter := limiter 1 recorded;
     MessageHandler.guild_rate_limiter := limiter 20 [];
     MessageHandler.llm_service := LLM.init |}.

Definition start : MessageHandler.Outside :=
  {| MessageHandler.net := Mock.start;
     MessageHandler.channel := [];
     MessageHandler.sends := 0 |}.

End MockBot.

(** * Properties *)

(** ** Timestamps *)

Lemma Qltb_lt (a b : Q) : Qltb a b = true <-> (a < b)%Q.
Proof.
  unfold Qltb. rewrite negb_true_iff, <- not_true_iff_false, Qle_bool_iff.
  split; [apply Qnot_le_lt | apply Qlt_not_le].
Qed.

Lemma Qltb_ge (a b : Q) : Qltb a b = false <-> (b <= a)%Q.
Proof.
  unfold Qltb. rewrite negb_false_iff. apply Qle_bool_iff.
Qed.

Lemma py_min_spec (rest : list Q) (m : Q) :
  In (py_min m rest) (m :: rest) /\
  forall t, In t (m :: rest) -> (py_min m rest <= t)%Q.
Proof.
  revert m. induction rest as [|x rest IH]; intros m.
  - split; [now left | intros t [<- | []]; apply Qle_refl].
  - unfold py_min in *. cbn [fold_left].
    destruct (Qltb x m) eqn:E.
    + apply Qltb_lt in E. destruct (IH x) as [Hin Hle]. split.
      * destruct Hin as [Hin | Hin]; [right; left; exact Hin | right; right; exact Hin].
      * intros t [<- | Ht].
        -- specialize (Hle x (or_introl eq_refl)). lra.
        -- apply Hle, Ht.
    + apply Qltb_ge in E. destruct (IH m) as [Hin Hle]. split.
      * destruct Hin as [Hin | Hin]; [left; exact Hin | right; right; exact Hin].
      * intros t [<- | [<- | Ht]].
        -- apply Hle. now left.
        -- specialize (Hle m (or_introl eq_refl)). lra.
        -- apply Hle. now right.
Qed.

(** ** The conversion of an [int] to a float *)

Module FloatFacts.

Local Open Scope Z_scope.

Lemma digits2_pos_log2 (p : positive) :
  Zpos (digits2_pos p) = Z.log2 (Zpos p) + 1.
Proof.
  induction p as [p IH|p IH|]; cbn [digits2_pos]; [| |reflexivity].
  - rewrite Pos2Z.inj_succ, IH.
    change (Zpos p~1) with (2 * Zpos p + 1). rewrite Z.log2_succ_double by lia. lia.
  - rewrite Pos2Z.inj_succ, IH.
    change (Zpos p~0) with (2 * Zpos p). rewrite Z.log2_double by lia. lia.
Qed.

Lemma digits2_pos_bounds (p : positive) :
  2 ^ (Zpos (digits2_pos p) - 1) <= Zpos p < 2 ^ Zpos (digits2_pos p).
Proof.
  rewrite digits2_pos_log2.
  pose proof (Z.log2_spec (Zpos p) ltac:(lia)) as H.
  replace (Z.log2 (Zpos p) + 1 - 1) with (Z.log2 (Zpos p)) by lia.
  replace (Z.log2 (Zpos p) + 1) with (Z.succ (Z.log2 (Zpos p))) by lia.
  exact H.
Qed.

Lemma digits2_pos_unique (p : positive) (d : Z) :
  2 ^ (d - 1) <= Zpos p < 2 ^ d -> Zpos (digits2_pos p) = d.
Proof.
  intros H. rewrite digits2_pos_log2.
  assert (0 < d).
  { destruct (Z.ltb_spec 0 d); [assumption|].
    assert (2 ^ d <= 1).
    { destruct (Z.eqb_spec d 0) as [->|]; [cbn; lia|].
      rewrite Z.pow_neg_r by lia. lia. }
    lia. }
  enough (Z.log2 (Zpos p) = d - 1) by lia.
  apply Z.log2_unique; [lia|].
  replace (Z.succ (d - 1)) with d by lia. exact H.
Qed.

(** One step of the right shift. *)
Lemma shr_1_spec (mrs : shr_record) :
  0 <= shr_m mrs ->
  shr_m (shr_1 mrs) = shr_m mrs / 2 /\
  shr_r (shr_1 mrs) = Z.odd (shr_m mrs) /\
  0 <= shr_m (shr_1 mrs).
Proof.
  destruct mrs as [m r s]. cbn [shr_m]. intros Hm.
  destruct m as [|p|p]; [| |lia].
  - cbn. repeat split; lia.
  - destruct p as [p|p|]; cbn [shr_1 shr_m shr_r].
    + split; [|split; [reflexivity | lia]].
      apply (Z.div_unique _ _ _ 1); lia.
    + split; [|split; [reflexivity | lia]].
      apply (Z.div_unique _ _ _ 0); lia.
    + split; [|split; [reflexivity | lia]]. reflexivity.
Qed.

(** [k] steps of the right shift: the quotient by [2 ^ k], and the last
    bit shifted out. *)
Lemma iter_shr_1_spec (k : positive) :
  forall mrs : shr_record,
  0 <= shr_m mrs ->
  shr_m (SpecFloat.iter_pos shr_1 k mrs) = shr_m mrs / 2 ^ Zpos k /\
  shr_r (SpecFloat.iter_pos shr_1 k mrs) = Z.testbit (shr_m mrs) (Zpos k - 1) /\
  0 <= shr_m (SpecFloat.iter_pos shr_1 k mrs).
Proof.
  induction k as [k IH|k IH|]; intros mrs Hm; cbn [SpecFloat.iter_pos].
  - assert (Hp : 2 ^ Zpos k~1 = 2 * 2 ^ Zpos k * 2 ^ Zpos k).
    { replace (Zpos k~1) with (1 + Zpos k + Zpos k) by lia.
      rewrite !Z.pow_add_r by lia. reflexivity. }
    destruct (shr_1_spec mrs Hm) as (H1 & _ & H1p).
    destruct (IH (shr_1 mrs) H1p) as (H2 & _ & H2p).
    destruct (IH _ H2p) as (H3 & H3r & H3p).
    split; [|split; [|exact H3p]].
    + rewrite H3, H2, H1, Hp. rewrite !Z.div_div by lia. f_equal. ring.
    + rewrite H3r, H2, H1. rewrite Z.div_div by lia.
      replace (2 * 2 ^ Zpos k) with (2 ^ (Zpos k + 1))
        by (rewrite Z.pow_add_r by lia; lia).
      rewrite <- Z.shiftr_div_pow2 by lia.
      rewrite Z.shiftr_spec by lia. f_equal. lia.
  - assert (Hp : 2 ^ Zpos k~0 = 2 ^ Zpos k * 2 ^ Zpos k).
    { replace (Zpos k~0) with (Zpos k + Zpos k) by lia.
      rewrite !Z.pow_add_r by lia. reflexivity. }
    destruct (IH mrs Hm) as (H2 & _ & H2p).
    destruct (IH _ H2p) as (H3 & H3r & H3p).
    split; [|split; [|exact H3p]].
    + rewrite H3, H2, Hp. rewrite !Z.div_div by lia. reflexivity.
    + rewrite H3r, H2.
      rewrite <- Z.shiftr_div_pow2 by lia.
      rewrite Z.shiftr_spec by lia. f_equal. lia.
  - destruct (shr_1_spec mrs Hm) as (H1 & H1r & H1p).
    split; [|split; [|exact H1p]].
    + rewrite H1. reflexivity.
    + rewrite H1r. rewrite <- Z.bit0_odd. reflexivity.
Qed.

(** Rounding to nearest, ties to even, moves the mantissa up by at most
    one; it moves an odd mantissa up exactly when the last bit shifted out
    is set. *)
Lemma round_nearest_even_spec (mrs : shr_record) :
  let m := round_nearest_even (shr_m mrs) (loc_of_shr_record mrs) in
  (m = shr_m mrs \/ m = shr_m mrs + 1) /\
  (shr_r mrs = false -> m = shr_m mrs) /\
  (shr_r mrs = true -> Z.odd (shr_m mrs) = true -> m = shr_m mrs + 1).
Proof.
  destruct mrs as [m [|] [|]]; cbn.
  - repeat split; auto. discriminate.
  - rewrite <- Z.negb_odd. destruct (Z.odd m); cbn; repeat split; auto; discriminate.
  - repeat split; auto. discriminate.
  - repeat split; auto. discriminate.
Qed.

Lemma Zdigits2_unique (m d : Z) :
  1 <= d -> 2 ^ (d - 1) <= m < 2 ^ d -> Zdigits2 m = d.
Proof.
  intros Hd H.
  assert (0 < m) by (pose proof (Z.pow_pos_nonneg 2 (d - 1)); lia).
  destruct m as [|q|q]; try lia. cbn [Zdigits2].
  now apply digits2_pos_unique.
Qed.

(** A mantissa of 53 bits is left as it is. *)
Lemma shr_fexp_53 (m e : Z) (l : location) :
  2 ^ 52 <= m < 2 ^ 53 -> -1074 <= e ->
  shr_fexp 53 1024 m e l = (shr_record_of_loc m l, e).
Proof.
  intros Hm He. unfold shr_fexp.
  rewrite (Zdigits2_unique m 53) by (first [exact Hm | lia]).
  unfold fexp, emin.
  replace (Z.max (53 + e - 53) (3 - 1024 - 53) - e) with 0 by lia.
  reflexivity.
Qed.

(** A mantissa of 54 bits that is a power of two loses its last bit. *)
Lemma shr_fexp_54 (e : Z) :
  -1074 <= e ->
  shr_fexp 53 1024 (2 ^ 53) e loc_Exact
  = ({| shr_m := 2 ^ 52; shr_r := false; shr_s := false |}, e + 1).
Proof.
  intros He. unfold shr_fexp.
  rewrite (Zdigits2_unique (2 ^ 53) 54) by (first [lia | split; [discriminate | reflexivity]]).
  unfold fexp, emin.
  replace (Z.max (54 + e - 53) (3 - 1024 - 53) - e) with 1 by lia.
  reflexivity.
Qed.

(** The end of a rounding whose first shift left a mantissa of 53 bits:
    the mantissa rounded, or [2 ^ 52] with the next exponent when rounding
    carried into a 54th bit; infinity when the exponent is above 971. *)
Lemma binary_round_aux_after (sx : bool) (mx ex : Z) (lx : location)
  (mrs' : shr_record) (e' : Z) :
  shr_fexp 53 1024 mx ex lx = (mrs', e') ->
  2 ^ 52 <= shr_m mrs' < 2 ^ 53 -> -1074 <= e' ->
  let m2 := round_nearest_even (shr_m mrs') (loc_of_shr_record mrs') in
  binary_round_aux 53 1024 sx mx ex lx
  = if m2 <? 2 ^ 53 then
      if e' <=? 971 then S754_finite sx (Z.to_pos m2) e' else S754_infinity sx
    else
      if e' + 1 <=? 971 then S754_finite sx (2 ^ 52)%positive (e' + 1)
      else S754_infinity sx.
Proof.
  intros Hshr Hm He m2. unfold binary_round_aux. rewrite Hshr. fold m2.
  destruct (round_nearest_even_spec mrs') as ([H2|H2] & _); fold m2 in H2.
  - assert (Hlt : (m2 <? 2 ^ 53) = true) by (apply Z.ltb_lt; lia).
    rewrite Hlt, shr_fexp_53 by lia. cbn [shr_record_of_loc shr_m].
    destruct m2 as [|q|q]; try lia. reflexivity.
  - destruct (Z.ltb_spec m2 (2 ^ 53)) as [Hlt|Hge].
    + rewrite shr_fexp_53 by lia. cbn [shr_record_of_loc shr_m].
      destruct m2 as [|q|q]; try lia. reflexivity.
    + assert (Heq : m2 = 2 ^ 53) by lia.
      rewrite Heq, shr_fexp_54 by lia. reflexivity.
Qed.

(** The first steps of the conversion of a positive [int] of [d] bits:
    the mantissa is brought to 53 bits, with the exponent [d - 53]; for an
    [int] of more than 53 bits it is the quotient by [2 ^ (d - 53)], and
    the last bit shifted out is bit [d - 54]. *)
Lemma binary_round_first (p : positive) :
  let d := Zpos (digits2_pos p) in
  exists (mz : positive) (ez : Z) (mrs' : shr_record),
    shl_align p 0 (fexp 53 1024 (d + 0)) = (mz, ez) /\
    shr_fexp 53 1024 (Zpos mz) ez loc_Exact = (mrs', d - 53) /\
    2 ^ 52 <= shr_m mrs' < 2 ^ 53 /\
    (54 <= d ->
     shr_m mrs' = Zpos p / 2 ^ (d - 53) /\
     shr_r mrs' = Z.testbit (Zpos p) (d - 54)).
Proof.
  intros d. pose proof (digits2_pos_bounds p) as Hp. fold d in Hp.
  assert (Hd : 1 <= d) by (unfold d; lia).
  assert (Hf : fexp 53 1024 (d + 0) = d - 53) by (unfold fexp, emin; lia).
  rewrite Hf. unfold shl_align. rewrite Z.sub_0_r.
  destruct (d - 53) as [|k|k] eqn:Ek.
  - (* 53 bits *)
    assert (d = 53) by lia.
    exists p, 0, {| shr_m := Zpos p; shr_r := false; shr_s := false |}.
    split; [reflexivity|].
    assert (Hb : 2 ^ 52 <= Zpos p < 2 ^ 53).
    { replace d with 53 in Hp by lia. exact Hp. }
    split; [now rewrite shr_fexp_53 by lia|].
    split; [exact Hb | lia].
  - (* more than 53 bits *)
    exists p, 0.
    assert (Hdk : d = Zpos k + 53) by lia.
    unfold shr_fexp. cbn [Zdigits2]. fold d. rewrite Hf, Z.sub_0_r.
    unfold shr. cbn [shr_record_of_loc].
    eexists. split; [reflexivity|]. split; [reflexivity|].
    destruct (iter_shr_1_spec k
                {| shr_m := Zpos p; shr_r := false; shr_s := false |})
      as (Hm & Hr & _); [cbn; lia|].
    cbn [shr_m] in Hm, Hr. rewrite Hm, Hr.
    split; [|intros _; split; [reflexivity | f_equal; lia]].
    assert (H2 : 2 ^ d = 2 ^ 53 * 2 ^ Zpos k)
      by (rewrite Hdk, Z.pow_add_r by lia; ring).
    assert (H1 : 2 ^ (d - 1) = 2 ^ 52 * 2 ^ Zpos k)
      by (replace (d - 1) with (52 + Zpos k) by lia;
          rewrite Z.pow_add_r by lia; ring).
    pose proof (Z.pow_pos_nonneg 2 (Zpos k)) as Hk.
    split.
    + apply Z.div_le_lower_bound; lia.
    + apply Z.div_lt_upper_bound; lia.
  - (* fewer than 53 bits *)
    assert (Hdk : d = 53 - Zpos k) by lia.
    exists (Pos.iter xO p k), (Zneg k),
      {| shr_m := Zpos (Pos.iter xO p k); shr_r := false; shr_s := false |}.
    split; [reflexivity|].
    assert (Hv : Zpos (Pos.iter xO p k) = 2 ^ Zpos k * Zpos p)
      by apply shift_pos_correct.
    assert (Hb : 2 ^ 52 <= Zpos (Pos.iter xO p k) < 2 ^ 53).
    { rewrite Hv.
      assert (H2 : 2 ^ 53 = 2 ^ Zpos k * 2 ^ d)
        by (rewrite <- Z.pow_add_r by lia; f_equal; lia).
      assert (H1 : 2 ^ 52 = 2 ^ Zpos k * 2 ^ (d - 1))
        by (rewrite <- Z.pow_add_r by lia; f_equal; lia).
      pose proof (Z.pow_pos_nonneg 2 (Zpos k)) as Hk.
      rewrite H1, H2. split; [apply Z.mul_le_mono_nonneg_l | apply Z.mul_lt_mono_pos_l]; lia. }
    split; [rewrite shr_fexp_53 by lia; reflexivity|].
    split; [exact Hb | lia].
Qed.

(** The conversion of a positive [int] overflows exactly from
    [float_max_int] on, and gives a finite float below. *)
Lemma binary_round_int (sx : bool) (p : positive) :
  (float_max_int <= Zpos p -> binary_round 53 1024 sx p 0 = S754_infinity sx) /\
  (Zpos p < float_max_int ->
   exists m e, binary_round 53 1024 sx p 0 = S754_finite sx m e).
Proof.
  unfold binary_round.
  destruct (binary_round_first p) as (mz & ez & mrs' & Hal & Hshr & Hb & Hbig).
  pose proof (digits2_pos_bounds p) as Hp.
  set (d := Zpos (digits2_pos p)) in *.
  assert (Hd : 1 <= d) by (unfold d; lia).
  rewrite Hal.
  rewrite (binary_round_aux_after sx _ _ _ mrs' (d - 53) Hshr Hb) by lia.
  pose proof (round_nearest_even_spec mrs') as (Hnear & Hdown & Hup).
  set (m2 := round_nearest_even (shr_m mrs') (loc_of_shr_record mrs')) in *.
  set (q := Zpos p / 2 ^ 970).
  assert (Hq : 2 ^ 970 * q <= Zpos p < 2 ^ 970 * (q + 1)).
  { unfold q. pose proof (Z.div_mod (Zpos p) (2 ^ 970) ltac:(lia)) as Hdm.
    pose proof (Z.mod_pos_bound (Zpos p) (2 ^ 970) ltac:(lia)). lia. }
  assert (Htop : d = 1024 ->
            shr_m mrs' = q / 2 /\ shr_r mrs' = Z.odd q /\
            2 ^ 53 <= q < 2 ^ 54).
  { intros Hd'. destruct Hbig as [Hm Hr]; [lia|].
    rewrite Hd' in Hm, Hr, Hp.
    change (1024 - 53) with 971 in Hm. change (1024 - 54) with 970 in Hr.
    change (1024 - 1) with 1023 in Hp.
    split; [|split].
    - rewrite Hm. unfold q. rewrite Z.div_div by lia. reflexivity.
    - rewrite Hr. unfold q. rewrite Z.testbit_odd, Z.shiftr_div_pow2 by lia.
      reflexivity.
    - unfold float_max_int in *. lia. }
  split.
  - intros Hge. unfold float_max_int in Hge.
    assert (Hd1 : 1024 <= d).
    { destruct (Z.ltb_spec d 1024) as [Hlt|]; [|assumption].
      pose proof (Z.pow_le_mono_r 2 d 1023 ltac:(lia) ltac:(lia)). lia. }
    destruct (Z.eqb_spec d 1024) as [Hd'|Hne].
    + destruct (Htop Hd') as (Hm & Hr & Hqb).
      assert (Hqv : q = 2 ^ 54 - 1) by lia.
      assert (Hm1 : shr_m mrs' = 2 ^ 53 - 1) by (rewrite Hm, Hqv; reflexivity).
      assert (Hm2 : m2 = 2 ^ 53).
      { rewrite Hup; [rewrite Hm1; reflexivity | rewrite Hr, Hqv; reflexivity
                     | rewrite Hm1; reflexivity]. }
      rewrite Hm2, Hd'. reflexivity.
    + assert (H1 : (d - 53 <=? 971) = false) by (apply Z.leb_gt; lia).
      assert (H2 : (d - 53 + 1 <=? 971) = false) by (apply Z.leb_gt; lia).
      rewrite H1, H2. now destruct (m2 <? 2 ^ 53).
  - intros Hlt. unfold float_max_int in Hlt.
    assert (Hd1 : d <= 1024).
    { destruct (Z.ltb_spec 1024 d) as [Hgt|]; [|assumption].
      pose proof (Z.pow_le_mono_r 2 1024 (d - 1) ltac:(lia) ltac:(lia)). lia. }
    destruct (Z.eqb_spec d 1024) as [Hd'|Hne].
    + destruct (Htop Hd') as (Hm & Hr & Hqb).
      assert (Hq2 : q <= 2 ^ 54 - 2) by lia.
      assert (Hm2 : (m2 <? 2 ^ 53) = true).
      { apply Z.ltb_lt.
        destruct (Z.eqb_spec q (2 ^ 54 - 2)) as [Hqv|Hqn].
        - rewrite Hdown; [rewrite Hm, Hqv; reflexivity | rewrite Hr, Hqv; reflexivity].
        - assert (shr_m mrs' < 2 ^ 53 - 1).
          { rewrite Hm. apply Z.div_lt_upper_bound; lia. }
          lia. }
      rewrite Hm2, Hd'. cbn. eauto.
    + assert (H1 : (d - 53 <=? 971) = true) by (apply Z.leb_le; lia).
      assert (H2 : (d - 53 + 1 <=? 971) = true) by (apply Z.leb_le; lia).
      rewrite H1, H2. destruct (m2 <? 2 ^ 53); eauto.
Qed.

(** [float(n)]: zero for 0, an overflow exactly when [abs n] reaches
    [float_max_int], and a finite float of the sign of [n] otherwise. *)
Lemma float_of_int_cases (n : Z) :
  (n = 0 -> float_of_int n = S754_zero false) /\
  (float_max_int <= Z.abs n -> float_of_int n = S754_infinity (n <? 0)) /\
  (n <> 0 -> Z.abs n < float_max_int ->
   exists m e, float_of_int n = S754_finite (n <? 0) m e).
Proof.
  unfold float_of_int, binary_normalize.
  destruct n as [|p|p]; cbn [Z.abs Z.ltb Z.compare].
  - split; [reflexivity|]. split; [|congruence].
    unfold float_max_int. intros H. exfalso. revert H. apply Z.lt_nge. reflexivity.
  - split; [discriminate|].
    destruct (binary_round_int false p) as [Hinf Hfin]. split; [exact Hinf|].
    intros _. exact Hfin.
  - split; [discriminate|].
    destruct (binary_round_int true p) as [Hinf Hfin]. split; [exact Hinf|].
    intros _. exact Hfin.
Qed.

End FloatFacts.

(** ** The rate limiter *)

Module RateLimitFacts.
Import RateLimit.

Lemma newer_than_all (cutoff : Q) (ts : list Q) :
  Forall (fun t => (cutoff < t)%Q) ts -> newer_than cutoff ts = ts.
Proof.
  induction 1 as [|t ts Ht _ IH]; [reflexivity|].
  unfold newer_than in *. cbn [List.filter].
  apply Qltb_lt in Ht. rewrite Ht. now f_equal.
Qed.

Lemma newer_than_In (cutoff t : Q) (ts : list Q) :
  In t (newer_than cutoff ts) <-> In t ts /\ (cutoff < t)%Q.
Proof.
  unfold newer_than. rewrite filter_In, Qltb_lt. reflexivity.
Qed.

(** What [is_allowed] computes, in terms of the recorded sequence. *)
Lemma is_allowed_unfold (now : Q) (key : string) (rl : RateLimiter) :
  let ts := newer_than (now - 60) (recorded key rl) in
  is_allowed now key rl =
  if (calls_per_minute rl <=? Z.of_nat (length ts))%Z then
    (false, {| calls_per_minute := calls_per_minute rl;
               min_interval := min_interval rl;
               _last_call := _last_call rl;
               _call_times := <[key := ts]> (_call_times rl) |})
  else
    (true, {| calls_per_minute := calls_per_minute rl;
              min_interval := min_interval rl;
              _last_call := <[key := now]> (_last_call rl);
              _call_times := <[key := ts ++ [now]]> (_call_times rl) |}).
Proof.
  unfold is_allowed, recorded.
  destruct (_call_times rl !! key) as [ts|] eqn:E; cbn [default].
  - rewrite lookup_insert_eq. cbn [default].
    rewrite !insert_insert_eq. reflexivity.
  - rewrite E. cbn [default]. rewrite !insert_insert_eq. reflexivity.
Qed.

(** A rejected call of a limiter with a positive limit only prunes. *)
Lemma is_allowed_rejected (now : Q) (key : string) (rl : RateLimiter) :
  (1 <= calls_per_minute rl)%Z ->
  fst (is_allowed now key rl) = false ->
  snd (is_allowed now key rl) = pruned now key rl.
Proof.
  intros Hpos. rewrite is_allowed_unfold. cbv zeta.
  destruct (Z.leb_spec (calls_per_minute rl)
              (Z.of_nat (length (newer_than (now - 60) (recorded key rl)))))
    as [Hle|Hlt]; [|discriminate].
  intros _. cbn [snd]. unfold pruned. f_equal.
  unfold recorded in *.
  destruct (_call_times rl !! key) as [ts|] eqn:E; cbn [default] in *.
  - apply map_eq. intros k. destruct (decide (k = key)) as [->|Hne].
    + rewrite lookup_insert_eq, lookup_alter_eq, E. reflexivity.
    + rewrite lookup_insert_ne, lookup_alter_ne by congruence. reflexivity.
  - cbn in Hle. lia.
Qed.

Lemma is_allowed_limit (now : Q) (key : string) (rl : RateLimiter) :
  calls_per_minute (snd (is_allowed now key rl)) = calls_per_minute rl.
Proof.
  rewrite is_allowed_unfold. cbv zeta.
  destruct (_ <=? _)%Z; reflexivity.
Qed.

(** A call with room left in the window is accepted and recorded. *)
Lemma is_allowed_accepts (now : Q) (key : string) (rl : RateLimiter) :
  Forall (fun t => (now - 60 < t)%Q) (recorded key rl) ->
  (Z.of_nat (length (recorded key rl)) < calls_per_minute rl)%Z ->
  fst (is_allowed now key rl) = true /\
  recorded key (snd (is_allowed now key rl)) = recorded key rl ++ [now].
Proof.
  intros Hwin Hroom. rewrite is_allowed_unfold. cbv zeta.
  rewrite (newer_than_all _ _ Hwin).
  destruct (Z.leb_spec (calls_per_minute rl) (Z.of_nat (length (recorded key rl))))
    as [Hle|Hlt]; [lia|].
  split; [reflexivity|]. cbn [snd]. unfold recorded at 1. cbn.
  rewrite lookup_insert_eq. reflexivity.
Qed.

(** A call that finds the window full is rejected and changes nothing. *)
Lemma is_allowed_full (now : Q) (key : string) (rl : RateLimiter) :
  Forall (fun t => (now - 60 < t)%Q) (recorded key rl) ->
  (1 <= calls_per_minute rl <= Z.of_nat (length (recorded key rl)))%Z ->
  is_allowed now key rl = (false, rl).
Proof.
  intros Hwin [Hpos Hfull]. rewrite is_allowed_unfold. cbv zeta.
  rewrite (newer_than_all _ _ Hwin).
  destruct (Z.leb_spec (calls_per_minute rl) (Z.of_nat (length (recorded key rl))))
    as [Hle|Hlt]; [|lia].
  f_equal. destruct rl as [cpm mi lc ct]. cbn in *. f_equal.
  unfold recorded in *. cbn in *.
  destruct (ct !! key) as [ts|] eqn:E; cbn in *; [|lia].
  now apply insert_id.
Qed.

Lemma calls_app (xs ys : list Q) (key : string) (rl : RateLimiter) :
  calls (xs ++ ys) key rl =
  (fst (calls xs key rl) ++ fst (calls ys key (snd (calls xs key rl))),
   snd (calls ys key (snd (calls xs key rl)))).
Proof.
  revert rl. induction xs as [|x xs IH]; intros rl.
  - cbn. now destruct (calls ys key rl).
  - cbn [calls app]. destruct (is_allowed x key rl) as [b rl1].
    rewrite IH. destruct (calls xs key rl1) as [bs rl2]. cbn [fst snd].
    destruct (calls ys key rl2); reflexivity.
Qed.

(** Calls within one window are all accepted while the limit is not
    reached, and each is recorded. *)
Lemma calls_accepted (w : Q) (key : string) (nows : list Q) (rl : RateLimiter) :
  in_window w (recorded key rl ++ nows) ->
  (Z.of_nat (length (recorded key rl) + length nows) <= calls_per_minute rl)%Z ->
  fst (calls nows key rl) = replicate (length nows) true /\
  recorded key (snd (calls nows key rl)) = recorded key rl ++ nows /\
  calls_per_minute (snd (calls nows key rl)) = calls_per_minute rl.
Proof.
  revert rl. induction nows as [|now nows IH]; intros rl Hwin Hroom.
  - cbn. now rewrite app_nil_r.
  - cbn [calls].
    assert (Hnow : (w < now)%Q /\ (now <= w + 60)%Q).
    { unfold in_window in Hwin. rewrite Forall_app in Hwin.
      destruct Hwin as [_ Hwin]. now inversion Hwin. }
    assert (Hold : Forall (fun t => (now - 60 < t)%Q) (recorded key rl)).
    { unfold in_window in Hwin. rewrite Forall_app in Hwin.
      destruct Hwin as [Hwin _]. eapply Forall_impl; [exact Hwin|].
      cbn. intros t [Ht _]. lra. }
    cbn [length] in Hroom.
    destruct (is_allowed_accepts now key rl Hold) as [Hb Hrec]; [lia|].
    pose proof (is_allowed_limit now key rl) as Hlim.
    destruct (is_allowed now key rl) as [b rl1]. cbn [fst snd] in *. subst b.
    specialize (IH rl1). rewrite Hrec, Hlim in IH.
    rewrite <- app_assoc in IH. cbn [app] in IH.
    destruct IH as (Hbs & Hrec' & Hlim'); [exact Hwin | rewrite length_app; cbn; lia |].
    destruct (calls nows key rl1) as [bs rl2]. cbn [fst snd length replicate] in *.
    now rewrite Hbs.
Qed.

(** C1: for a limit [L >= 1] and a key with nothing recorded, [L] calls of
    [is_allowed] within one window of 60 seconds all return true and are
    recorded, and one more call in that window returns false; the rejected
    call leaves the limiter as a pruning of the sequence of the key leaves
    it (here it removes nothing), so no timestamp is recorded for it. *)
Theorem limit_calls_then_rejected (L : nat) (w last : Q) (key : string)
  (nows : list Q) (rl : RateLimiter) :
  (1 <= L)%nat ->
  calls_per_minute rl = Z.of_nat L ->
  recorded key rl = [] ->
  length nows = L ->
  in_window w (nows ++ [last]) ->
  let after := snd (calls nows key rl) in
  calls (nows ++ [last]) key rl = (replicate L true ++ [false], pruned last key after) /\
  fst (calls nows key rl) = replicate L true /\
  recorded key after = nows /\
  is_allowed last key after = (false, pruned last key after) /\
  recorded key (pruned last key after) = nows /\
  _last_call (pruned last key after) = _last_call after.
Proof.
  intros HL Hlim Hempty Hlen Hwin after.
  destruct (calls_accepted w key nows rl) as (Hbs & Hrec & Hlim').
  { rewrite Hempty. cbn [app]. unfold in_window in *.
    rewrite Forall_app in Hwin. tauto. }
  { rewrite Hempty, Hlim. cbn. lia. }
  rewrite Hempty in Hrec. cbn [app] in Hrec. fold after in Hrec, Hlim'.
  assert (Hfull : is_allowed last key after = (false, after)).
  { apply is_allowed_full.
    - rewrite Hrec. unfold in_window in Hwin. rewrite Forall_app in Hwin.
      destruct Hwin as [Hw Hl]. apply Forall_inv in Hl. destruct Hl as [Hl1 Hl2].
      eapply Forall_impl; [exact Hw|]. cbn. intros t [Ht _]. lra.
    - rewrite Hrec, Hlim', Hlim, Hlen. lia. }
  assert (Hpr : pruned last key after = after).
  { pose proof (is_allowed_rejected last key after) as H.
    rewrite Hfull in H. cbn [fst snd] in H. symmetry. apply H; [|reflexivity].
    rewrite Hlim', Hlim. lia. }
  rewrite Hpr. repeat split; try assumption.
  - rewrite calls_app. fold after. rewrite Hbs, Hlen. cbn [calls].
    rewrite Hfull. reflexivity.
  - now rewrite Hbs, Hlen.
Qed.

Lemma limit_calls_then_rejected_witness :
  calls [1; 2; 3; 4]%Q "user1"
    {| calls_per_minute := 3; min_interval := 20;
       _last_call := ∅; _call_times := ∅ |}
  = ([true; true; true; false],
     pruned 4 "user1"
       (snd (calls [1; 2; 3]%Q "user1"
               {| calls_per_minute := 3; min_interval := 20;
                  _last_call := ∅; _call_times := ∅ |}))).
Proof.
  apply (limit_calls_then_rejected 3 0 4 "user1" [1; 2; 3]%Q).
  - lia.
  - reflexivity.
  - reflexivity.
  - reflexivity.
  - unfold in_window.
    repeat (constructor; [split; lra|]). constructor.
Defined.

Lemma recorded_pruned (now : Q) (key : string) (rl : RateLimiter) :
  recorded key (pruned now key rl) = newer_than (now - 60) (recorded key rl).
Proof.
  unfold recorded, pruned. cbn. rewrite lookup_alter_eq.
  now destruct (_call_times rl !! key).
Qed.

Lemma newer_than_idem (cutoff : Q) (ts : list Q) :
  newer_than cutoff (newer_than cutoff ts) = newer_than cutoff ts.
Proof.
  apply newer_than_all, Forall_forall. intros t Ht.
  apply list_elem_of_In, newer_than_In in Ht. tauto.
Qed.

(** An accepted call records its own clock value. *)
Lemma is_allowed_records (now : Q) (key : string) (rl : RateLimiter) :
  fst (is_allowed now key rl) = true ->
  recorded key (snd (is_allowed now key rl))
  = newer_than (now - 60) (recorded key rl) ++ [now].
Proof.
  rewrite is_allowed_unfold. cbv zeta.
  destruct (_ <=? _)%Z; [discriminate|]. intros _.
  unfold recorded at 1. cbn. now rewrite lookup_insert_eq.
Qed.







Lemma float_max_int_pos : (0 < float_max_int)%Z.
Proof. reflexivity. Qed.

(** [float_max_int] is where the conversion starts to overflow: the int
    just below it is the largest float, and it rounds to infinity itself. *)
Example float_of_int_boundary :
  float_of_int (float_max_int - 1)
    = S754_finite false (2 ^ 53 - 1) 971 /\
  float_of_int float_max_int = S754_infinity false /\
  float_of_int (- float_max_int) = S754_infinity true.
Proof. repeat split; vm_compute; reflexivity. Qed.

(** The constructor by the size of the limit. *)
Lemma init_unfold (cpm : Z) :
  init cpm
  = if (float_max_int <=? Z.abs cpm)%Z then inl OverflowError
    else if (cpm =? 0)%Z then inl ZeroDivisionError
    else inr {| calls_per_minute := cpm;
                min_interval :=
                  Q_of_float (float_div (float_of_int 60) (float_of_int cpm));
                _last_call := ∅;
                _call_times := ∅ |}.
Proof.
  pose proof float_max_int_pos as Hmax.
  destruct (FloatFacts.float_of_int_cases cpm) as (Hzero & Hinf & Hfin).
  unfold init.
  destruct (Z.leb_spec float_max_int (Z.abs cpm)) as [Hbig|Hfit].
  - now rewrite (Hinf Hbig).
  - destruct (Z.eqb_spec cpm 0) as [Hz|Hnz].
    + now rewrite (Hzero Hz).
    + destruct (Hfin Hnz Hfit) as (m & e & Hf). now rewrite Hf.
Qed.

(** The quotient for the limits of the tests and of [Config]: 20, 12 and 3
    seconds. *)
Example min_interval_of_small_limits :
  (exists rl, init 3 = inr rl /\ (min_interval rl == 20)%Q) /\
  (exists rl, init 5 = inr rl /\ (min_interval rl == 12)%Q) /\
  (exists rl, init 20 = inr rl /\ (min_interval rl == 3)%Q).
Proof.
  repeat split; eexists; (split; [reflexivity | vm_compute; reflexivity]).
Qed.

(** C9, as the code has it: the constructor is defined for every limit
    from 1 up to the ints a float can hold (below [2 ** 1024 - 2 ** 970]),
    with [min_interval] the float quotient; it raises a division by zero
    exactly for the limit 0, and an overflow error exactly for the limits
    too large to convert to a float; a limiter whose limit were 0 would
    reject every call. *)
Theorem init_within_float_range :
  (forall cpm : Z, (1 <= cpm < float_max_int)%Z ->
     exists rl, init cpm = inr rl /\ calls_per_minute rl = cpm /\
                min_interval rl
                = Q_of_float (float_div (float_of_int 60) (float_of_int cpm)) /\
                _call_times rl = ∅ /\ _last_call rl = ∅) /\
  (forall cpm : Z, init cpm = inl ZeroDivisionError <-> cpm = 0%Z) /\
  (forall cpm : Z,
     init cpm = inl OverflowError <-> (float_max_int <= Z.abs cpm)%Z) /\
  (forall now key rl, calls_per_minute rl = 0%Z ->
     fst (is_allowed now key rl) = false).
Proof.
  pose proof float_max_int_pos as Hmax.
  split; [|split; [|split]].
  - intros cpm [Hpos Hfit]. rewrite init_unfold.
    destruct (Z.leb_spec float_max_int (Z.abs cpm)) as [Hbig|_]; [lia|].
    destruct (Z.eqb_spec cpm 0) as [->|Hne]; [lia|].
    eexists. repeat split; reflexivity.
  - intros cpm. rewrite init_unfold.
    destruct (Z.leb_spec float_max_int (Z.abs cpm)) as [Hbig|Hfit];
      [|destruct (Z.eqb_spec cpm 0) as [Hz|Hnz]];
      split; try discriminate; try reflexivity; try lia; intros; congruence.
  - intros cpm. rewrite init_unfold.
    destruct (Z.leb_spec float_max_int (Z.abs cpm)) as [Hbig|Hfit];
      [|destruct (Z.eqb_spec cpm 0) as [Hz|Hnz]];
      split; try discriminate; try reflexivity; try lia; intros; congruence.
  - intros now key rl Hz. rewrite is_allowed_unfold. cbv zeta. rewrite Hz.
    destruct (Z.leb_spec 0 (Z.of_nat (length (newer_than (now - 60) (recorded key rl)))))
      as [_|Hlt]; [reflexivity | lia].
Qed.

(** C9 as stated fails: a limit of [2 ** 1024] is at least 1, and the
    constructor raises an overflow error for it. *)
Lemma init_overflow_counterexample :
  (1 <= 2 ^ 1024)%Z /\ init (2 ^ 1024) = inl OverflowError.
Proof. split; [discriminate | vm_compute; reflexivity]. Qed.

(** Under a clock that does not run backwards no recorded timestamp lies
    in the future: [is_allowed] keeps it so. *)
Lemma is_allowed_no_future (now later : Q) (key : string) (rl : RateLimiter) :
  (now <= later)%Q ->
  no_future now key rl ->
  no_future later key (snd (is_allowed now key rl)).
Proof.
  intros Hle Hfut. unfold no_future in *.
  assert (Hw : Forall (fun t => (t <= later)%Q)
                 (newer_than (now - 60) (recorded key rl))).
  { apply Forall_forall. intros t Ht.
    apply list_elem_of_In, newer_than_In in Ht. destruct Ht as [Ht _].
    rewrite Forall_forall in Hfut. apply list_elem_of_In, Hfut in Ht. lra. }
  rewrite is_allowed_unfold. cbv zeta.
  destruct (_ <=? _)%Z; unfold recorded at 1; cbn; rewrite lookup_insert_eq; cbn.
  - exact Hw.
  - apply Forall_app. split; [exact Hw|]. constructor; [exact Hle | constructor].
Qed.

(** Two keys do not interfere: a call for one key leaves what is recorded
    for another key, and the answer to a later call for it, as they were. *)
Lemma is_allowed_other_key (now later : Q) (key other : string)
  (rl : RateLimiter) :
  key <> other ->
  recorded other (snd (is_allowed now key rl)) = recorded other rl /\
  _last_call (snd (is_allowed now key rl)) !! other = _last_call rl !! other /\
  fst (is_allowed later other (snd (is_allowed now key rl)))
  = fst (is_allowed later other rl).
Proof.
  intros Hne.
  assert (Hrec : recorded other (snd (is_allowed now key rl)) = recorded other rl).
  { rewrite is_allowed_unfold. cbv zeta. unfold recorded.
    destruct (_ <=? _)%Z; cbn; now rewrite lookup_insert_ne. }
  split; [exact Hrec|]. split.
  - rewrite is_allowed_unfold. cbv zeta.
    destruct (_ <=? _)%Z; cbn; [reflexivity | now rewrite lookup_insert_ne].
  - rewrite (is_allowed_unfold later other (snd (is_allowed now key rl))).
    rewrite (is_allowed_unfold later other rl). cbv zeta.
    rewrite Hrec, is_allowed_limit. now destruct (_ <=? _)%Z.
Qed.

Lemma is_allowed_other_key_witness :
  fst (is_allowed 2 "user2"
         (snd (is_allowed 1 "user1"
                 {| calls_per_minute := 1; min_interval := 60;
                    _last_call := ∅; _call_times := ∅ |})))
  = fst (is_allowed 2 "user2"
           {| calls_per_minute := 1; min_interval := 60;
              _last_call := ∅; _call_times := ∅ |}).
Proof.
  apply (is_allowed_other_key 1 2 "user1" "user2").
  discriminate.
Defined.

(** ** More on the rate limiter *)

Lemma newer_than_length (cutoff : Q) (ts : list Q) :
  (length (newer_than cutoff ts) <= length ts)%nat.
Proof.
  unfold newer_than. induction ts as [|t ts IH]; cbn; [lia|].
  destruct (Qltb cutoff t); cbn; lia.
Qed.


Lemma newer_than_none (cutoff : Q) (ts : list Q) :
  Forall (fun t => (t <= cutoff)%Q) ts -> newer_than cutoff ts = [].
Proof.
  induction 1 as [|t ts Ht _ IH]; [reflexivity|].
  unfold newer_than in *. cbn. apply Qltb_ge in Ht. now rewrite Ht.
Qed.

Lemma is_allowed_recorded_other (now : Q) (key other : string)
  (rl : RateLimiter) :
  key <> other ->
  recorded other (snd (is_allowed now key rl)) = recorded other rl.
Proof.
  intros Hne. rewrite is_allowed_unfold. cbv zeta. unfold recorded.
  destruct (_ <=? _)%Z; cbn; now rewrite lookup_insert_ne.
Qed.

(** What a call leaves recorded for its own key. *)
Lemma is_allowed_recorded (now : Q) (key : string) (rl : RateLimiter) :
  let ts := newer_than (now - 60) (recorded key rl) in
  recorded key (snd (is_allowed now key rl))
  = if fst (is_allowed now key rl) then ts ++ [now] else ts.
Proof.
  rewrite is_allowed_unfold. cbv zeta.
  destruct (_ <=? _)%Z; unfold recorded at 1; cbn;
    now rewrite lookup_insert_eq.
Qed.

Lemma is_allowed_decides (now : Q) (key : string) (rl : RateLimiter) :
  fst (is_allowed now key rl)
  = negb (calls_per_minute rl
          <=? Z.of_nat (length (newer_than (now - 60) (recorded key rl))))%Z.
Proof.
  rewrite is_allowed_unfold. cbv zeta. now destruct (_ <=? _)%Z.
Qed.

(** The sliding window as an invariant: started with nothing recorded and
    called for any keys under a clock that does not run backwards, the
    limiter never holds, for any key, more timestamps than the limit, nor a
    timestamp later than the last clock value read. *)
Theorem run_keeps_within_limit (t0 : Q) (cs : list (Q * string))
  (rl : RateLimiter) (key : string) :
  (forall k, recorded k rl = []) ->
  nondecreasing t0 cs ->
  (Z.of_nat (length (recorded key (run cs rl)))
   <= Z.max 0 (calls_per_minute rl))%Z /\
  no_future (final_clock t0 cs) key (run cs rl) /\
  calls_per_minute (run cs rl) = calls_per_minute rl.
Proof.
  intros Hempty Hclock.
  assert (Hgen : forall cs t rl0,
    nondecreasing t cs ->
    (forall k, (Z.of_nat (length (recorded k rl0))
                <= Z.max 0 (calls_per_minute rl0))%Z /\ no_future t k rl0) ->
    (forall k, (Z.of_nat (length (recorded k (run cs rl0)))
                <= Z.max 0 (calls_per_minute rl0))%Z /\
               no_future (final_clock t cs) k (run cs rl0)) /\
    calls_per_minute (run cs rl0) = calls_per_minute rl0).
  { clear. induction cs as [|[now k0] cs IH]; intros t rl0 Hclock Hinv.
    - split; [exact Hinv | reflexivity].
    - destruct Hclock as [Hle Hclock]. cbn [fst] in Hle, Hclock.
      unfold run. cbn [fold_left fst snd]. fold (run cs (snd (is_allowed now k0 rl0))).
      cbn [final_clock fst].
      pose proof (is_allowed_limit now k0 rl0) as Hlim.
      destruct (IH now (snd (is_allowed now k0 rl0)) Hclock) as [Hk Hl].
      + intros k. destruct (decide (k0 = k)) as [->|Hne].
        * destruct (Hinv k) as [Hlen Hfut]. split.
          -- rewrite Hlim, is_allowed_recorded, is_allowed_decides. cbv zeta.
             pose proof (newer_than_length (now - 60) (recorded k rl0)) as Hsh.
             destruct (Z.leb_spec (calls_per_minute rl0)
                         (Z.of_nat (length (newer_than (now - 60) (recorded k rl0)))));
               cbn [negb]; [lia|].
             rewrite length_app. cbn [length]. lia.
          -- apply (is_allowed_no_future now now); [apply Qle_refl|].
             unfold no_future in *. eapply Forall_impl; [exact Hfut|].
             cbn. intros x Hx. lra.
        * destruct (Hinv k) as [Hlen Hfut]. split.
          -- now rewrite Hlim, is_allowed_recorded_other.
          -- unfold no_future in *. rewrite is_allowed_recorded_other by exact Hne.
             eapply Forall_impl; [exact Hfut|]. cbn. intros x Hx. lra.
      + rewrite Hlim in Hk. split; [exact Hk | now rewrite Hl]. }
  destruct (Hgen cs t0 rl Hclock) as [Hk Hl].
  - intros k. split; [rewrite Hempty; cbn; lia|].
    unfold no_future. rewrite Hempty. constructor.
  - destruct (Hk key) as [H1 H2]. auto.
Qed.

Lemma run_keeps_within_limit_witness :
  (Z.of_nat (length (recorded "user1"
      (run [(1, "user1"); (2, "user1"); (2, "user2"); (3, "user1")]%Q
         {| calls_per_minute := 2; min_interval := 30;
            _last_call := ∅; _call_times := ∅ |})))
   <= Z.max 0 2)%Z.
Proof.
  apply (run_keeps_within_limit 0
           [(1, "user1"); (2, "user1"); (2, "user2"); (3, "user1")]%Q
           {| calls_per_minute := 2; min_interval := 30;
              _last_call := ∅; _call_times := ∅ |} "user1").
  - intros k. reflexivity.
  - cbn. repeat split; lra.
Defined.

(** Calls that find the window full, one after the other: all rejected,
    nothing recorded. *)
Lemma calls_rejected (key : string) (rest : list Q) :
  forall rl : RateLimiter,
  Forall (fun now => Forall (fun t => (now - 60 < t)%Q) (recorded key rl)) rest ->
  (calls_per_minute rl <= Z.of_nat (length (recorded key rl)))%Z ->
  fst (calls rest key rl) = replicate (length rest) false /\
  recorded key (snd (calls rest key rl)) = recorded key rl.
Proof.
  induction rest as [|now rest IH]; intros rl Hwin Hfull; [now cbn|].
  apply Forall_cons in Hwin. destruct Hwin as [Hnow Hrest].
  pose proof (is_allowed_decides now key rl) as Hb.
  pose proof (is_allowed_recorded now key rl) as Hrec.
  pose proof (is_allowed_limit now key rl) as Hlim.
  cbv zeta in Hrec. rewrite (newer_than_all _ _ Hnow) in Hb, Hrec.
  destruct (Z.leb_spec (calls_per_minute rl) (Z.of_nat (length (recorded key rl))))
    as [_|Hlt]; [|lia].
  cbn [negb] in Hb. rewrite Hb in Hrec. cbn [calls].
  destruct (is_allowed now key rl) as [b rl1]. cbn [fst snd] in *. subst b.
  destruct (IH rl1) as [Hbs Hrec'].
  { now rewrite Hrec. }
  { now rewrite Hrec, Hlim. }
  destruct (calls rest key rl1) as [bs rl2]. cbn [fst snd length replicate] in *.
  split; [now rewrite Hbs | now rewrite Hrec', Hrec].
Qed.

(** A burst of any size: of the calls made for one key within one window
    of 60 seconds, starting with nothing recorded, the first [limit] are
    accepted and recorded and all the others are rejected. *)
Theorem burst_in_window (w : Q) (key : string) (nows : list Q)
  (rl : RateLimiter) :
  recorded key rl = [] ->
  in_window w nows ->
  let L := Z.to_nat (calls_per_minute rl) in
  fst (calls nows key rl)
  = replicate (Nat.min L (length nows)) true
    ++ replicate (length nows - L) false /\
  recorded key (snd (calls nows key rl)) = take L nows.
Proof.
  intros Hempty Hwin L.
  assert (Hc : calls nows key rl =
    (fst (calls (take L nows) key rl)
     ++ fst (calls (drop L nows) key (snd (calls (take L nows) key rl))),
     snd (calls (drop L nows) key (snd (calls (take L nows) key rl)))))
    by (rewrite <- calls_app; now rewrite take_drop).
  rewrite Hc. cbn [fst snd]. clear Hc.
  assert (Hin1 : in_window w (take L nows)) by (now apply Forall_take).
  assert (Hin2 : in_window w (drop L nows)) by (now apply Forall_drop).
  assert (Hfirst :
    fst (calls (take L nows) key rl) = replicate (length (take L nows)) true /\
    recorded key (snd (calls (take L nows) key rl)) = take L nows /\
    calls_per_minute (snd (calls (take L nows) key rl)) = calls_per_minute rl).
  { destruct (take L nows) as [|t ts] eqn:Et.
    - cbn. auto.
    - rewrite <- Et in *.
      destruct (calls_accepted w key (take L nows) rl) as (H1 & H2 & H3).
      + now rewrite Hempty.
      + rewrite Hempty. cbn [app length Nat.add].
        pose proof (length_take nows L) as Hlen.
        assert (L <> 0)%nat by (intros H0; rewrite H0 in Et; discriminate).
        unfold L in *. lia.
      + rewrite Hempty in H2. auto. }
  destruct Hfirst as (H1 & H2 & H3).
  rewrite H1, length_take.
  destruct (Nat.le_gt_cases (length nows) L) as [Hshort|Hlong].
  - rewrite (drop_ge nows L Hshort). cbn [calls fst snd].
    replace (length nows - L)%nat with 0%nat by lia. cbn [replicate].
    split; [reflexivity | exact H2].
  - destruct (calls_rejected key (drop L nows)
                (snd (calls (take L nows) key rl))) as [Hbs Hrec].
    + rewrite H2. unfold in_window in *.
      apply Forall_forall. intros now Hnow.
      rewrite Forall_forall in Hin2. destruct (Hin2 now Hnow) as [_ Hle].
      eapply Forall_impl; [exact Hin1|]. cbn. intros t [Ht _]. lra.
    + rewrite H2, H3, length_take. unfold L. lia.
    + rewrite Hbs, Hrec, length_drop. split; [reflexivity | exact H2].
Qed.

Lemma burst_in_window_witness :
  fst (calls [1; 2; 3; 4; 5]%Q "user1"
         {| calls_per_minute := 2; min_interval := 30;
            _last_call := ∅; _call_times := ∅ |})
  = [true; true; false; false; false].
Proof.
  apply (burst_in_window 0 "user1" [1; 2; 3; 4; 5]%Q
           {| calls_per_minute := 2; min_interval := 30;
              _last_call := ∅; _call_times := ∅ |}).
  - reflexivity.
  - unfold in_window. repeat (constructor; [split; lra|]). constructor.
Defined.

(** The quota comes back: once every recorded timestamp is 60 seconds old
    or more, a limiter with a limit of at least 1 accepts the call, and the
    sequence of the key is the new timestamp alone. *)
Theorem quota_recovers (now : Q) (key : string) (rl : RateLimiter) :
  (1 <= calls_per_minute rl)%Z ->
  Forall (fun t => (t <= now - 60)%Q) (recorded key rl) ->
  fst (is_allowed now key rl) = true /\
  recorded key (snd (is_allowed now key rl)) = [now] /\
  _last_call (snd (is_allowed now key rl)) !! key = Some now.
Proof.
  intros Hpos Hold.
  pose proof (is_allowed_decides now key rl) as Hb.
  pose proof (is_allowed_recorded now key rl) as Hrec. cbv zeta in Hrec.
  rewrite (newer_than_none _ _ Hold) in Hb, Hrec. cbn [length] in Hb.
  destruct (Z.leb_spec (calls_per_minute rl) (Z.of_nat 0)) as [Hle|_];
    [cbn in Hle; lia|].
  cbn [negb] in Hb. rewrite Hb in Hrec. split; [exact Hb|]. split; [exact Hrec|].
  revert Hb. rewrite is_allowed_unfold. cbv zeta.
  destruct (_ <=? _)%Z; [discriminate|]. intros _. cbn.
  apply lookup_insert_eq.
Qed.

Lemma quota_recovers_witness :
  fst (is_allowed 100 "user1"
         {| calls_per_minute := 1; min_interval := 60;
            _last_call := {[ "user1" := 40%Q ]};
            _call_times := {[ "user1" := [40%Q] ]} |}) = true.
Proof.
  apply (quota_recovers 100 "user1").
  - cbn. lia.
  - unfold recorded. cbn. constructor; [lra | constructor].
Defined.




(** Whatever the three clock reads of a cooldown check, as long as the last
    is not before the first and no recorded timestamp is later than the
    first, the result is neither negative nor more than 60. *)
Theorem cooldown_bounds (now1 now2 now3 : Q) (key : string) (rl : RateLimiter) :
  (now1 <= now3)%Q ->
  no_future now1 key rl ->
  let r := get_cooldown_seconds now1 now2 now3 key rl in
  (0 <= fst r)%Q /\ (fst r <= 60)%Q.
Proof.
  intros Hle Hfut r. subst r. unfold get_cooldown_seconds.
  pose proof (is_allowed_no_future now1 now1 key rl (Qle_refl _) Hfut) as Hfut1.
  destruct (is_allowed now1 key rl) as [b rl1]. cbn [snd] in Hfut1.
  destruct b; [cbn; lra|].
  fold (recorded key rl1).
  destruct (newer_than (now2 - 60) (recorded key rl1)) as [|t rest] eqn:Ew;
    [cbn; lra|].
  destruct (py_min_spec rest t) as [Hin _].
  rewrite <- Ew in Hin. apply newer_than_In in Hin. destruct Hin as [Hin _].
  unfold no_future in Hfut1. rewrite Forall_forall in Hfut1.
  apply list_elem_of_In, Hfut1 in Hin. cbn [fst]. unfold py_max.
  destruct (Qltb 0 (60 - (now3 - py_min t rest))) eqn:E.
  - apply Qltb_lt in E. lra.
  - lra.
Qed.

Lemma cooldown_bounds_witness :
  (fst (get_cooldown_seconds 10 70 71 "user1"
          {| calls_per_minute := 1; min_interval := 60;
             _last_call := {[ "user1" := 9%Q ]};
             _call_times := {[ "user1" := [9%Q] ]} |}) <= 60)%Q.
Proof.
  apply (cooldown_bounds 10 70 71 "user1").
  - lra.
  - unfold no_future, recorded. cbn. constructor; [lra | constructor].
Defined.

End RateLimitFacts.

(** ** The expiring cache *)

Module CacheFacts.
Import Cache.

Section WithValue.
Context {T : Type}.
Implicit Types (c : SimpleCache T) (e : CacheEntry T) (o : op T).

Lemma is_expired_true (now : Q) e : is_expired now e = true <-> (expires_at e < now)%Q.
Proof. apply Qltb_lt. Qed.

Lemma is_expired_false (now : Q) e : is_expired now e = false <-> (now <= expires_at e)%Q.
Proof. apply Qltb_ge. Qed.


(** [get] on an entry that has not expired returns its value and leaves
    the cache as it is. *)
Lemma get_live (now : Q) (key : string) e c :
  _cache c !! key = Some e -> (now <= expires_at e)%Q ->
  get now key c = (Some (value e), c).
Proof.
  intros Hk Hle. unfold get. rewrite Hk.
  apply is_expired_false in Hle. now rewrite Hle.
Qed.

(** [get] on an expired entry returns nothing and removes the entry. *)
Lemma get_expired (now : Q) (key : string) e c :
  _cache c !! key = Some e -> (expires_at e < now)%Q ->
  get now key c = (None, {| ttl_seconds := ttl_seconds c;
                            _cache := delete key (_cache c) |}).
Proof.
  intros Hk Hlt. unfold get. rewrite Hk.
  apply is_expired_true in Hlt. now rewrite Hlt.
Qed.

Lemma get_lookup_other (now : Q) (key k : string) c :
  k <> key -> _cache (snd (get now k c)) !! key = _cache c !! key.
Proof.
  intros Hne. unfold get. destruct (_cache c !! k) as [e|]; [|reflexivity].
  destruct (is_expired now e); [|reflexivity].
  cbn. now rewrite lookup_delete_ne.
Qed.





(** After [clear] the cache holds nothing: its size is 0 and every read
    finds nothing. *)
Lemma clear_empties c :
  size (clear c) = 0%nat /\
  forall (now : Q) (key : string), get now key (clear c) = (None, clear c).
Proof.
  split; [apply map_size_empty|].
  intros now key. unfold get, clear. cbn. now rewrite lookup_empty.
Qed.

(** What [get] returns for a key depends on the entry of that key only. *)
Lemma get_fst_lookup (now : Q) (key : string) c1 c2 :
  _cache c1 !! key = _cache c2 !! key ->
  fst (get now key c1) = fst (get now key c2).
Proof.
  intros Heq. unfold get. rewrite Heq.
  destruct (_cache c2 !! key) as [e|]; [|reflexivity].
  now destruct (is_expired now e).
Qed.

(** Keys do not interfere: storing under another key, or reading another
    key (which may evict it), does not change what [get] returns for a
    key. *)
Theorem get_other_key_untouched (now t : Q) (key other : string) (v : T) c :
  key <> other ->
  fst (get now key (set t other v c)) = fst (get now key c) /\
  fst (get now key (snd (get t other c))) = fst (get now key c).
Proof.
  intros Hne. split; apply get_fst_lookup.
  - cbn. now rewrite lookup_insert_ne.
  - now apply get_lookup_other.
Qed.

(** [size] counts the entries stored, expired or not: storing under a new
    key adds one, storing under a key already held adds none, a read that
    finds an expired entry takes one away, and any other read changes
    nothing. *)
Theorem size_counts_stored (now : Q) (key : string) (v : T) c :
  size (set now key v c)
  = match _cache c !! key with
    | Some _ => size c
    | None => S (size c)
    end /\
  (forall e, _cache c !! key = Some e -> (expires_at e < now)%Q ->
     S (size (snd (get now key c))) = size c) /\
  (forall e, _cache c !! key = Some e -> (now <= expires_at e)%Q ->
     size (snd (get now key c)) = size c) /\
  (_cache c !! key = None -> size (snd (get now key c)) = size c).
Proof.
  unfold size. split; [|split; [|split]].
  - cbn. rewrite map_size_insert. now destruct (_cache c !! key).
  - intros e Hk Hlt. rewrite (get_expired now key e c Hk Hlt). cbn.
    rewrite map_size_delete, Hk.
    assert (base.size (_cache c) <> 0%nat).
    { intros H0. apply map_size_empty_inv in H0. rewrite H0 in Hk.
      now rewrite lookup_empty in Hk. }
    lia.
  - intros e Hk Hle. now rewrite (get_live now key e c Hk Hle).
  - intros Hk. unfold get. now rewrite Hk.
Qed.

End WithValue.


Lemma get_other_key_untouched_witness :
  fst (get 5 "key1" (set 4 "key2" "value2" (set 3 "key1" "value1" (init 2))))
  = fst (get 5 "key1" (set 3 "key1" "value1" (init 2))).
Proof.
  apply (get_other_key_untouched 5 4 "key1" "key2" "value2"
           (set 3 "key1" "value1" (init 2))).
  discriminate.
Defined.

End CacheFacts.

(** ** Python strings *)

Module StrFacts.
Import Str.

Lemma lstrip_all_space (s : string) : all_space s = true -> lstrip s = EmptyString.
Proof.
  induction s as [|c s IH]; cbn; [reflexivity|].
  intros H. apply andb_true_iff in H. destruct H as [Hc Hs].
  rewrite Hc. now apply IH.
Qed.

Lemma strip_all_space (s : string) : all_space s = true -> strip s = EmptyString.
Proof. intros H. unfold strip. now rewrite lstrip_all_space. Qed.

Lemma length_take (n : nat) (s : string) :
  String.length (take n s) = Nat.min n (String.length s).
Proof.
  revert s. induction n as [|n IH]; intros [|c s]; simpl; try reflexivity.
  now f_equal.
Qed.

Lemma length_append (s t : string) :
  String.length (s +:+ t) = (String.length s + String.length t)%nat.
Proof.
  induction s as [|c s IH]; [reflexivity|].
  change (S (String.length (s +:+ t)) = S (String.length s + String.length t)).
  now f_equal.
Qed.

(** [take n s] is the prefix of [s] of [n] characters. *)
Lemma take_prefix (n : nat) (s : string) :
  (n <= String.length s)%nat -> exists rest, s = take n s +:+ rest.
Proof.
  revert s. induction n as [|n IH]; intros s Hn.
  - exists s. now destruct s.
  - destruct s as [|c s]; cbn in Hn; [lia|].
    destruct (IH s) as [rest Hrest]; [lia|].
    exists rest. change (String c s = String c (take n s +:+ rest)).
    now f_equal.
Qed.

(** [lstrip] leaves nothing, or a text that starts with a character that is
    not white space. *)
Lemma lstrip_head (s : string) :
  lstrip s = EmptyString \/
  exists c rest, lstrip s = String c rest /\ is_space c = false.
Proof.
  induction s as [|c s IH]; [now left|].
  cbn [lstrip]. destruct (is_space c) eqn:E; [exact IH|].
  right. now exists c, s.
Qed.

Lemma lstrip_empty (s : string) : lstrip s = EmptyString -> all_space s = true.
Proof.
  induction s as [|c s IH]; [reflexivity|].
  cbn [lstrip all_space]. destruct (is_space c); [exact IH | discriminate].
Qed.

Lemma rstrip_empty (s : string) : rstrip s = EmptyString -> all_space s = true.
Proof.
  induction s as [|c s IH]; [reflexivity|].
  cbn [rstrip all_space]. destruct (rstrip s) as [|d kept]; [|discriminate].
  destruct (is_space c); [intros _; now apply IH | discriminate].
Qed.


(** [rstrip] keeps a first character that is not white space. *)
Lemma rstrip_head (c : ascii) (s : string) :
  is_space c = false -> exists kept, rstrip (String c s) = String c kept.
Proof.
  intros Hc. cbn [rstrip]. destruct (rstrip s) as [|d kept].
  - rewrite Hc. now exists EmptyString.
  - now exists (String d kept).
Qed.


(** [strip] leaves nothing exactly of the texts made of white space. *)
Lemma strip_empty_iff (s : string) :
  strip s = EmptyString <-> all_space s = true.
Proof.
  split; [|apply strip_all_space].
  unfold strip. intros H. apply lstrip_empty.
  destruct (lstrip_head s) as [E|(c & rest & E & Hc)]; [exact E|].
  rewrite E in H. destruct (rstrip_head c rest Hc) as [kept Hk].
  rewrite Hk in H. discriminate.
Qed.

Lemma prefix_append (old s : string) : String.prefix old (old +:+ s) = true.
Proof.
  induction old as [|a old IH]; [now destruct s|].
  change (String a old +:+ s) with (String a (old +:+ s)).
  cbn [String.prefix]. destruct (Ascii.ascii_dec a a); [exact IH | congruence].
Qed.

(** A text in which [old] does not occur is left as it is. *)
Lemma replace_from_absent (old new s : string) :
  old <> EmptyString -> contains old s = false ->
  replace_from old new 0 s = s.
Proof.
  intros Hold. induction s as [|c s IH]; [reflexivity|].
  cbn [contains replace_from]. intros H.
  apply orb_false_iff in H. destruct H as [Hp Hc].
  rewrite Hp. f_equal. now apply IH.
Qed.

Lemma replace_absent (old new s : string) :
  old <> EmptyString -> contains old s = false -> replace old new s = s.
Proof.
  intros Hold Hc. unfold replace. destruct old; [congruence|].
  now apply replace_from_absent.
Qed.

Lemma replace_from_skip (old new : string) (o s : string) :
  replace_from old new (String.length o) (o +:+ s) = replace_from old new 0 s.
Proof.
  induction o as [|a o IH]; [reflexivity|].
  change (String a o +:+ s) with (String a (o +:+ s)). exact IH.
Qed.

(** A leading occurrence of [old] is replaced, and the scan goes on after
    it. *)
Lemma replace_leading (old new s : string) :
  old <> EmptyString ->
  replace old new (old +:+ s) = new +:+ replace old new s.
Proof.
  intros Hold. unfold replace. destruct old as [|a o]; [congruence|].
  change (String a o +:+ s) with (String a (o +:+ s)).
  cbn [replace_from].
  change (String a (o +:+ s)) with (String a o +:+ s).
  rewrite prefix_append.
  replace (String.length (String a o) - 1)%nat with (String.length o)
    by (cbn [String.length]; lia).
  now rewrite replace_from_skip.
Qed.

End StrFacts.

(** ** The completion client *)

Module LLMFacts.
Import LLM.

Section WithProvider.
Variable hash : string -> Z.
Variable provider : nat -> string -> string -> call.

Local Abbreviation ask := (LLM.ask hash provider).
Local Abbreviation retry_loop := (LLM.retry_loop hash provider).
Local Abbreviation attempts := (LLM.attempts hash provider).
Local Abbreviation cache_check := (LLM.cache_check hash).

Lemma ask_accepted (prompt : string) (sp : option string) (s : LLMService)
  (w : World) :
  accepted prompt = true ->
  ask prompt sp s w =
  match cache_check prompt (effective sp) s w with
  | (Some v, s1) => (inr v, s1, w)
  | (None, s1) => retry_loop (effective sp) prompt s1 w
  end.
Proof.
  unfold accepted, LLM.ask, LLM.cache_check, effective. intros Hacc.
  apply andb_true_iff in Hacc. destruct Hacc as [-> ->]. cbn [negb orb].
  destruct (cache s) as [ch|]; [|reflexivity].
  destruct (Cache.get _ _ ch) as [[v|] ch1]; [|reflexivity].
  now destruct (truthy v).
Qed.

Lemma cache_check_max_retries (prompt sp : string) (s : LLMService) (w : World) :
  max_retries (snd (cache_check prompt sp s w)) = max_retries s.
Proof.
  unfold LLM.cache_check. destruct (cache s) as [ch|]; [|reflexivity].
  now destruct (Cache.get _ _ ch).
Qed.

(** C7: for every prompt that is empty or made of white space only, [ask]
    raises [ValueError] at once: the service and the world (the number of
    requests sent, the waits, the clock) are left as they were. *)
Theorem ask_blank_prompt (prompt : string) (sp : option string)
  (s : LLMService) (w : World) :
  Str.all_space prompt = true ->
  ask prompt sp s w = (inl (ValueError "Prompt cannot be empty"), s, w).
Proof.
  intros Hblank. unfold LLM.ask.
  rewrite (StrFacts.strip_all_space prompt Hblank). cbn [truthy negb].
  now rewrite orb_true_r.
Qed.



Lemma wait_unless_last_requests (s : LLMService) (attempt : Z) (secs : Q)
  (w : World) : requests (wait_unless_last s attempt secs w) = requests w.
Proof. unfold wait_unless_last. now destruct (_ <? _)%Z. Qed.




(** Every iteration of the loop sends a request. *)
Lemma attempts_requests (sp prompt : string) (s : LLMService) (todo : nat) :
  forall (attempt : Z) (last : option string) (w : World),
  (requests w + Nat.min 1 todo <=
   requests (world (attempts todo attempt last sp prompt s w)))%nat.
Proof.
  induction todo as [|todo IH]; intros attempt last w.
  - cbn. unfold world. cbn. lia.
  - cbn [LLM.attempts Nat.min].
    set (c := provider (requests w) sp prompt).
    set (w1 := {| clock := (clock w + latency c)%Q;
                  requests := S (requests w); sleeps := sleeps w |}).
    assert (Hgo : forall secs l,
      (requests w + 1 <=
       requests (world (attempts todo (attempt + 1) l sp prompt s
                          (wait_unless_last s attempt secs w1))))%nat).
    { intros secs l.
      pose proof (IH (attempt + 1)%Z l (wait_unless_last s attempt secs w1)) as H.
      rewrite wait_unless_last_requests in H. cbn [requests w1] in H. lia. }
    destruct (output_of (outcome c)) as [[msg|msg|msg|msg]|out];
      try apply Hgo.
    + destruct (Str.contains "401" msg || Str.contains "403" msg);
        [unfold world; cbn; lia | apply Hgo].
    + unfold world. cbn. lia.
Qed.

(** A successful first attempt returns the trimmed text and stores it. *)
Lemma attempts_success (todo : nat) (attempt : Z) (last : option string)
  (sp prompt output : string) (s : LLMService) (w : World) :
  let c := provider (requests w) sp prompt in
  output_of (outcome c) = inr output ->
  attempts (S todo) attempt last sp prompt s w =
  (inr output,
   store (clock w + latency c)%Q (LLM._build_cache_key hash sp prompt) output s,
   {| clock := (clock w + latency c)%Q;
      requests := S (requests w);
      sleeps := sleeps w |}).
Proof.
  intros c Hout. subst c. cbn [LLM.attempts]. now rewrite Hout.
Qed.

(** A cache that holds the empty string for the key of the pair does not
    answer. *)
Lemma cache_check_empty (prompt sp : string) (s : LLMService) (w : World)
  (ch : Cache.SimpleCache string) (e : Cache.CacheEntry string) :
  cache s = Some ch ->
  Cache._cache ch !! LLM._build_cache_key hash sp prompt = Some e ->
  Cache.value e = EmptyString ->
  fst (cache_check prompt sp s w) = None.
Proof.
  intros Hc Hk He. unfold LLM.cache_check. rewrite Hc.
  unfold Cache.get. rewrite Hk.
  destruct (Cache.is_expired (clock w) e); [reflexivity|].
  cbn. now rewrite He.
Qed.

(** C10: when the cache entry of the pair holds the empty string, [ask]
    goes on to the retry loop as on a miss, whether the entry has expired
    or not, and with at least one attempt allowed it sends a request; so
    when the provider's text trims to the empty string, [ask] returns it
    and stores it, and every later [ask] for the same pair, at whatever
    time, sends a request again. *)
Theorem ask_empty_cached_value (prompt : string) (sp : option string)
  (s : LLMService) (w : World) (ch : Cache.SimpleCache string)
  (e : Cache.CacheEntry string) :
  accepted prompt = true ->
  (1 <= max_retries s)%Z ->
  cache s = Some ch ->
  Cache._cache ch !! LLM._build_cache_key hash (effective sp) prompt = Some e ->
  Cache.value e = EmptyString ->
  let r := ask prompt sp s w in
  let key := LLM._build_cache_key hash (effective sp) prompt in
  r = retry_loop (effective sp) prompt
        (snd (cache_check prompt (effective sp) s w)) w /\
  (requests w < requests (world r))%nat /\
  (output_of (outcome (provider (requests w) (effective sp) prompt))
     = inr EmptyString ->
   result r = inr EmptyString /\
   (exists ch' e', cache (service r) = Some ch' /\
                   Cache._cache ch' !! key = Some e' /\
                   Cache.value e' = EmptyString) /\
   forall w2 : World,
     ask prompt sp (service r) w2
     = retry_loop (effective sp) prompt
         (snd (cache_check prompt (effective sp) (service r) w2)) w2 /\
     (requests w2 < requests (world (ask prompt sp (service r) w2)))%nat).
Proof.
  intros Hacc Hmax Hc Hk He r key.
  assert (Hmiss : forall (s0 : LLMService) (w0 : World) ch0 e0,
    (1 <= max_retries s0)%Z ->
    cache s0 = Some ch0 -> Cache._cache ch0 !! key = Some e0 ->
    Cache.value e0 = EmptyString ->
    ask prompt sp s0 w0
    = retry_loop (effective sp) prompt
        (snd (cache_check prompt (effective sp) s0 w0)) w0 /\
    (requests w0 < requests (world (ask prompt sp s0 w0)))%nat).
  { intros s0 w0 ch0 e0 Hm0 Hc0 Hk0 He0.
    rewrite (ask_accepted _ _ _ _ Hacc).
    pose proof (cache_check_empty prompt (effective sp) s0 w0 ch0 e0 Hc0 Hk0 He0)
      as Hnone.
    pose proof (cache_check_max_retries prompt (effective sp) s0 w0) as Hmr.
    destruct (cache_check prompt (effective sp) s0 w0) as [hit s1].
    cbn [fst snd] in *. subst hit. split; [reflexivity|].
    unfold LLM.retry_loop.
    pose proof (attempts_requests (effective sp) prompt s1
                  (Z.to_nat (max_retries s1)) 1 None w0) as Hreq.
    rewrite Hmr in *. lia. }
  destruct (Hmiss s w ch e Hmax Hc Hk He) as [Hloop Hreq].
  split; [exact Hloop|]. split; [exact Hreq|].
  intros Hout.
  pose proof (cache_check_max_retries prompt (effective sp) s w) as Hmr.
  assert (Hs1 : exists ch1, cache (snd (cache_check prompt (effective sp) s w))
                            = Some ch1).
  { unfold LLM.cache_check. rewrite Hc.
    destruct (Cache.get _ _ ch) as [v ch1]. cbn. eauto. }
  destruct Hs1 as [ch1 Hch1].
  assert (Hr : r = (inr EmptyString,
                    store (clock w + latency (provider (requests w) (effective sp) prompt))%Q
                      key EmptyString (snd (cache_check prompt (effective sp) s w)),
                    {| clock := (clock w + latency (provider (requests w) (effective sp) prompt))%Q;
                       requests := S (requests w);
                       sleeps := sleeps w |})).
  { subst r. rewrite Hloop. unfold LLM.retry_loop. rewrite Hmr.
    destruct (Z.to_nat (max_retries s)) as [|todo] eqn:E; [lia|].
    now rewrite (attempts_success _ _ _ _ _ EmptyString _ _ Hout). }
  assert (Hsvc : exists ch' e', cache (service r) = Some ch' /\
                   Cache._cache ch' !! key = Some e' /\
                   Cache.value e' = EmptyString).
  { rewrite Hr. unfold service, store. cbn [fst snd]. rewrite Hch1.
    eexists _, _. cbn. split; [reflexivity|].
    split; [apply lookup_insert_eq | reflexivity]. }
  split; [now rewrite Hr|]. split; [exact Hsvc|].
  intros w2. destruct Hsvc as (ch' & e' & Hc' & Hk' & He').
  apply (Hmiss (service r) w2 ch' e'); try assumption.
  rewrite Hr. unfold service, store. cbn [fst snd]. rewrite Hch1. cbn.
  now rewrite Hmr.
Qed.






(** ** More on the completion client *)

Lemma ask_rejected (prompt : string) (sp : option string) (s : LLMService)
  (w : World) :
  accepted prompt = false ->
  ask prompt sp s w = (inl (ValueError "Prompt cannot be empty"), s, w).
Proof.
  unfold accepted, LLM.ask. intros Hrej.
  rewrite <- negb_andb, Hrej. reflexivity.
Qed.

(** The requests and the waits of the loop are bounded by the number of
    iterations left. *)
Lemma attempts_bounds (sp prompt : string) (s : LLMService) (todo : nat) :
  forall (attempt : Z) (last : option string) (w : World),
  (attempt + Z.of_nat todo = max_retries s + 1)%Z ->
  let r := attempts todo attempt last sp prompt s w in
  (requests w <= requests (world r) <= requests w + todo)%nat /\
  exists waits,
    sleeps (world r) = sleeps w ++ waits /\
    (length waits <= todo - 1)%nat /\
    Forall (fun q => q = 1%Q \/
                     exists a, (attempt <= a < max_retries s)%Z /\
                               q = inject_Z (2 ^ a)) waits.
Proof.
  induction todo as [|todo IH]; intros attempt last w Hnum r; subst r.
  - cbn. unfold world. cbn. split; [lia|].
    exists []. rewrite app_nil_r. repeat split; [cbn; lia | constructor].
  - cbn [LLM.attempts].
    set (c := provider (requests w) sp prompt).
    set (w1 := {| clock := (clock w + latency c)%Q;
                  requests := S (requests w); sleeps := sleeps w |}).
    assert (Hstop : forall (res : exn + string) (s' : LLMService),
      (requests w <= requests (world (res, s', w1)) <= requests w + S todo)%nat /\
      exists waits,
        sleeps (world (res, s', w1)) = sleeps w ++ waits /\
        (length waits <= S todo - 1)%nat /\
        Forall (fun q => q = 1%Q \/
                         exists a, (attempt <= a < max_retries s)%Z /\
                                   q = inject_Z (2 ^ a)) waits).
    { intros res s'. unfold world. cbn. split; [lia|].
      exists []. rewrite app_nil_r. repeat split; [cbn; lia | constructor]. }
    assert (Hgo : forall (q : Q) (l : option string),
      q = 1%Q \/ q = inject_Z (2 ^ attempt) ->
      let r := attempts todo (attempt + 1) l sp prompt s
                 (wait_unless_last s attempt q w1) in
      (requests w <= requests (world r) <= requests w + S todo)%nat /\
      exists waits,
        sleeps (world r) = sleeps w ++ waits /\
        (length waits <= S todo - 1)%nat /\
        Forall (fun q => q = 1%Q \/
                         exists a, (attempt <= a < max_retries s)%Z /\
                                   q = inject_Z (2 ^ a)) waits).
    { intros q l Hq r.
      destruct (IH (attempt + 1)%Z l (wait_unless_last s attempt q w1))
        as (Hreq & waits & Hsl & Hlen & Hall); [lia|]. fold r in Hreq, Hsl.
      rewrite wait_unless_last_requests in Hreq. cbn [requests w1] in Hreq.
      split; [lia|].
      assert (Hweak : Forall (fun q => q = 1%Q \/
                         exists a, (attempt <= a < max_retries s)%Z /\
                                   q = inject_Z (2 ^ a)) waits).
      { eapply Forall_impl; [exact Hall|]. cbn.
        intros x [Hx|(a & Ha & Hx)]; [now left | right; exists a; split; [lia | exact Hx]]. }
      unfold wait_unless_last in Hsl.
      destruct (Z.ltb_spec attempt (max_retries s)) as [Hlt|Hge].
      - exists (q :: waits). cbn [sleep sleeps w1] in Hsl.
        rewrite <- app_assoc in Hsl. split; [exact Hsl|]. split; [cbn; lia|].
        constructor; [|exact Hweak].
        destruct Hq as [->| ->]; [now left | right; exists attempt; split; [lia | reflexivity]].
      - exists waits. cbn [sleeps w1] in Hsl. split; [exact Hsl|].
        split; [lia | exact Hweak]. }
    destruct (output_of (outcome c)) as [[msg|msg|msg|msg]|out].
    + apply Hgo. now right.
    + apply Hgo. now right.
    + destruct (Str.contains "401" msg || Str.contains "403" msg);
        [apply Hstop | apply Hgo; now right].
    + apply Hgo. now left.
    + apply Hstop.
Qed.

(** What [ask] never does: it sends no more requests than [max_retries],
    sleeps at most once less than that, and each wait is either 1 second
    or [2 ** a] seconds for an attempt number [a] below [max_retries];
    the waits made before are kept. *)
Theorem ask_effort_bounded (prompt : string) (sp : option string)
  (s : LLMService) (w : World) :
  let r := ask prompt sp s w in
  let n := Z.to_nat (max_retries s) in
  (requests w <= requests (world r) <= requests w + n)%nat /\
  exists waits,
    sleeps (world r) = sleeps w ++ waits /\
    (length waits <= n - 1)%nat /\
    Forall (fun q => q = 1%Q \/
                     exists a, (1 <= a < max_retries s)%Z /\
                               q = inject_Z (2 ^ a)) waits.
Proof.
  intros r n. subst r.
  assert (Hnone : forall (res : exn + string) (s' : LLMService),
    (requests w <= requests (world (res, s', w)) <= requests w + n)%nat /\
    exists waits,
      sleeps (world (res, s', w)) = sleeps w ++ waits /\
      (length waits <= n - 1)%nat /\
      Forall (fun q => q = 1%Q \/
                       exists a, (1 <= a < max_retries s)%Z /\
                                 q = inject_Z (2 ^ a)) waits).
  { intros res s'. unfold world. cbn. split; [lia|].
    exists []. rewrite app_nil_r. repeat split; [cbn; lia | constructor]. }
  destruct (accepted prompt) eqn:Hacc.
  2:{ rewrite (ask_rejected _ _ _ _ Hacc). apply Hnone. }
  rewrite (ask_accepted _ _ _ _ Hacc).
  pose proof (cache_check_max_retries prompt (effective sp) s w) as Hmr.
  destruct (cache_check prompt (effective sp) s w) as [[v|] s1];
    [apply Hnone|].
  cbn [snd] in Hmr. unfold LLM.retry_loop. rewrite Hmr. fold n.
  destruct n as [|m] eqn:En; [apply Hnone|].
  pose proof (attempts_bounds (effective sp) prompt s1 (S m) 1 None w) as Hb.
  rewrite Hmr in Hb. apply Hb. lia.
Qed.

(** A loop that ends in an exception leaves the service as it was. *)
Lemma attempts_failure_service (sp prompt : string) (s : LLMService)
  (todo : nat) :
  forall (attempt : Z) (last : option string) (w : World) (e : exn),
  result (attempts todo attempt last sp prompt s w) = inl e ->
  service (attempts todo attempt last sp prompt s w) = s.
Proof.
  induction todo as [|todo IH]; intros attempt last w e; [reflexivity|].
  cbn [LLM.attempts].
  destruct (output_of (outcome (provider (requests w) sp prompt)))
    as [[msg|msg|msg|msg]|out]; try apply IH.
  - destruct (Str.contains "401" msg || Str.contains "403" msg);
      [reflexivity | apply IH].
  - unfold result. cbn. discriminate.
Qed.

(** A failed [ask] stores nothing: whenever [ask] raises, every entry the
    cache holds afterwards was already there, unchanged, before the call
    (the lookup may only have evicted an expired entry), and a service
    without a cache still has none. *)
Theorem ask_failure_stores_nothing (prompt : string) (sp : option string)
  (s : LLMService) (w : World) (e : exn) :
  result (ask prompt sp s w) = inl e ->
  max_retries (service (ask prompt sp s w)) = max_retries s /\
  match cache s, cache (service (ask prompt sp s w)) with
  | Some ch, Some ch' =>
      Cache.ttl_seconds ch' = Cache.ttl_seconds ch /\
      forall k en, Cache._cache ch' !! k = Some en ->
                   Cache._cache ch !! k = Some en
  | None, None => True
  | _, _ => False
  end.
Proof.
  destruct (accepted prompt) eqn:Hacc.
  2:{ rewrite (ask_rejected _ _ _ _ Hacc). intros _. unfold service. cbn.
      split; [reflexivity|]. destruct (cache s); auto. }
  rewrite (ask_accepted _ _ _ _ Hacc). unfold LLM.cache_check.
  destruct (cache s) as [ch|] eqn:Hc.
  - destruct (Cache.get (clock w) (LLM._build_cache_key hash (effective sp) prompt) ch)
      as [cached ch1] eqn:Eget.
    assert (Hsub : Cache.ttl_seconds ch1 = Cache.ttl_seconds ch /\
              forall k en, Cache._cache ch1 !! k = Some en ->
                           Cache._cache ch !! k = Some en).
    { revert Eget. unfold Cache.get.
      destruct (Cache._cache ch !! _) as [en0|]; [|intros [= _ <-]; auto].
      destruct (Cache.is_expired (clock w) en0); intros [= _ <-]; [|auto].
      cbn. split; [reflexivity|]. intros k en Hk.
      apply lookup_delete_Some in Hk. tauto. }
    assert (Hloop : result (retry_loop (effective sp) prompt
                      {| max_retries := max_retries s; cache := Some ch1 |} w)
                    = inl e ->
      max_retries (service (retry_loop (effective sp) prompt
                      {| max_retries := max_retries s; cache := Some ch1 |} w))
      = max_retries s /\
      match cache (service (retry_loop (effective sp) prompt
                      {| max_retries := max_retries s; cache := Some ch1 |} w)) with
      | Some ch' =>
          Cache.ttl_seconds ch' = Cache.ttl_seconds ch /\
          forall k en, Cache._cache ch' !! k = Some en ->
                       Cache._cache ch !! k = Some en
      | None => False
      end).
    { intros Hr. unfold LLM.retry_loop in *.
      now rewrite (attempts_failure_service _ _ _ _ _ _ _ _ Hr). }
    destruct cached as [v|]; [|exact Hloop].
    destruct (truthy v); [|exact Hloop].
    unfold result. cbn. discriminate.
  - intros Hr. unfold LLM.retry_loop in *.
    rewrite (attempts_failure_service _ _ _ _ _ _ _ _ Hr). now rewrite Hc.
Qed.



(** After [clear_cache] nothing is served from the cache: [ask] goes to
    the retry loop with the cleared service, and with at least one attempt
    allowed it sends a request. *)
Theorem ask_after_clear_cache (prompt : string) (sp : option string)
  (s : LLMService) (w : World) :
  accepted prompt = true ->
  ask prompt sp (clear_cache s) w
  = retry_loop (effective sp) prompt (clear_cache s) w /\
  ((1 <= max_retries s)%Z ->
   (requests w < requests (world (ask prompt sp (clear_cache s) w)))%nat).
Proof.
  intros Hacc.
  assert (Heq : ask prompt sp (clear_cache s) w
                = retry_loop (effective sp) prompt (clear_cache s) w).
  { rewrite (ask_accepted _ _ _ _ Hacc). unfold LLM.cache_check, clear_cache.
    destruct (cache s) as [ch|] eqn:Hc; cbn [cache].
    - unfold Cache.get, Cache.clear. cbn. rewrite lookup_empty. reflexivity.
    - rewrite Hc. reflexivity. }
  split; [exact Heq|]. intros Hmax. rewrite Heq. unfold LLM.retry_loop.
  pose proof (attempts_requests (effective sp) prompt (clear_cache s)
                (Z.to_nat (max_retries (clear_cache s))) 1 None w) as Hreq.
  assert (Hmr : max_retries (clear_cache s) = max_retries s)
    by (unfold clear_cache; now destruct (cache s)).
  rewrite Hmr in *. lia.
Qed.


End WithProvider.

Lemma ask_blank_prompt_witness :
  ask Mock.hash (Mock.always (Response [Some "pong"])) "   " None init Mock.start
  = (inl (ValueError "Prompt cannot be empty"), init, Mock.start).
Proof.
  apply (ask_blank_prompt Mock.hash (Mock.always (Response [Some "pong"]))
           "   " None init Mock.start).
  reflexivity.
Defined.





Lemma ask_empty_cached_value_witness :
  let s := {| max_retries := 3;
              cache := Some {| Cache.ttl_seconds := 3600;
                               Cache._cache :=
                                 {[ LLM._build_cache_key Mock.hash
                                      Config.SYSTEM_PROMPT "hi"
                                    := {| Cache.value := EmptyString;
                                          Cache.expires_at := 3600 |} ]} |} |} in
  (requests Mock.start
   < requests (world (ask Mock.hash (Mock.always (Response [Some "pong"]))
                        "hi" None s Mock.start)))%nat.
Proof.
  cbv zeta.
  eapply (ask_empty_cached_value Mock.hash
            (Mock.always (Response [Some "pong"])) "hi" None).
  - reflexivity.
  - cbn. lia.
  - reflexivity.
  - apply lookup_singleton_eq.
  - reflexivity.
Defined.



(** C4 at the input where the code departs from it: the provider answers
    with white space only. The first [ask] returns the trimmed text, the
    empty string, and stores it; the second [ask] for the same pair, at
    once and well within the time to live, sends a second request. *)
Theorem ask_empty_reply_requests_again :
  let p := Mock.always (Response [Some "   "]) in
  let r1 := ask Mock.hash p "hi" None init Mock.start in
  let r2 := ask Mock.hash p "hi" None (service r1) (world r1) in
  result r1 = inr EmptyString /\
  requests (world r1) = 1%nat /\
  (exists ch e, cache (service r1) = Some ch /\
     Cache._cache ch !! LLM._build_cache_key Mock.hash Config.SYSTEM_PROMPT "hi"
       = Some e /\
     Cache.value e = EmptyString /\
     (clock (world r1) <= Cache.expires_at e)%Q) /\
  result r2 = inr EmptyString /\
  requests (world r2) = 2%nat.
Proof.
  cbv zeta. split; [vm_compute; reflexivity|]. split; [vm_compute; reflexivity|].
  split.
  - eexists _, _. split; [reflexivity|].
    split; [apply lookup_insert_eq|]. split; [reflexivity|].
    vm_compute. discriminate.
  - split; vm_compute; reflexivity.
Qed.

Lemma ask_failure_stores_nothing_witness :
  max_retries
    (service (ask Mock.hash (Mock.always (Raises (APITimeoutError "timed out")))
                "hi" None init Mock.start))
  = max_retries init.
Proof.
  apply (ask_failure_stores_nothing Mock.hash
           (Mock.always (Raises (APITimeoutError "timed out")))
           "hi" None init Mock.start
           (RuntimeError
              "Failed to get LLM response after 3 attempts: timed out")).
  vm_compute. reflexivity.
Defined.


Lemma ask_after_clear_cache_witness :
  ask Mock.hash (Mock.always (Response [Some "pong"])) "hi" None
    (clear_cache init) Mock.start
  = retry_loop Mock.hash (Mock.always (Response [Some "pong"]))
      (effective None) "hi" (clear_cache init) Mock.start.
Proof.
  apply (ask_after_clear_cache Mock.hash (Mock.always (Response [Some "pong"]))
           "hi" None init Mock.start).
  reflexivity.
Defined.


(** ** The cache key *)

Lemma append_cons (c : ascii) (s t : string) :
  String c s +:+ t = String c (s +:+ t).
Proof. reflexivity. Qed.

Lemma pretty_N_char_not_colon (x : N) : pretty_N_char x <> ":"%char.
Proof. unfold pretty_N_char. repeat case_match; discriminate. Qed.

Lemma pretty_N_go_lacks_colon (x : N) :
  forall s, Str.lacks ":" s = true -> Str.lacks ":" (pretty_N_go x s) = true.
Proof.
  induction (N.lt_wf_0 x) as [x _ IH]. intros s Hs.
  destruct (decide (x = 0)%N) as [->|Hx]; [now rewrite pretty_N_go_0|].
  rewrite pretty_N_go_step by lia. apply IH; [apply N.div_lt; lia|].
  cbn [Str.lacks]. rewrite Hs, andb_true_r. apply negb_true_iff.
  destruct (Ascii.eqb_spec (pretty_N_char (x `mod` 10)) ":") as [Heq|_];
    [|reflexivity].
  now apply pretty_N_char_not_colon in Heq.
Qed.

Lemma pretty_Z_lacks_colon (z : Z) : Str.lacks ":" (pretty z) = true.
Proof.
  assert (Hpos : forall p : positive, Str.lacks ":" (pretty (Npos p)) = true).
  { intros p. unfold pretty, pretty_N. case_decide; [reflexivity|].
    now apply pretty_N_go_lacks_colon. }
  destruct z as [|p|p]; [reflexivity | apply Hpos |].
  unfold pretty, pretty_Z. rewrite append_cons. cbn [Str.lacks].
  apply andb_true_iff. split; [reflexivity | apply Hpos].
Qed.

(** Two texts without the separator, each followed by the separator and
    more, are equal only part by part. *)
Lemma append_separator_inj (c : ascii) (s1 : string) :
  forall s2 t1 t2 : string,
  Str.lacks c s1 = true -> Str.lacks c s2 = true ->
  s1 +:+ String c t1 = s2 +:+ String c t2 ->
  s1 = s2 /\ t1 = t2.
Proof.
  induction s1 as [|a s1 IH]; intros [|b s2] t1 t2 H1 H2 Heq.
  - change (String c t1 = String c t2) in Heq. now injection Heq as ->.
  - rewrite append_cons in Heq. change (String c t1 = String b (s2 +:+ String c t2)) in Heq.
    injection Heq as <- _. cbn in H2. now rewrite Ascii.eqb_refl in H2.
  - rewrite append_cons in Heq. change (String a (s1 +:+ String c t1) = String c t2) in Heq.
    injection Heq as -> _. cbn in H1. now rewrite Ascii.eqb_refl in H1.
  - rewrite !append_cons in Heq. injection Heq as -> Heq.
    cbn in H1, H2. apply andb_true_iff in H1, H2.
    destruct (IH s2 t1 t2) as [-> ->]; tauto.
Qed.

(** Two pairs of prompts get the same cache key exactly when the hashes of
    their system prompts agree and the hashes of their user prompts
    agree: equal pairs always share a key, and different pairs share one
    only when [hash] collides on both parts. *)
Theorem cache_key_injective (hash : string -> Z)
  (sp up sp' up' : string) :
  LLM._build_cache_key hash sp up = LLM._build_cache_key hash sp' up'
  <-> hash sp = hash sp' /\ hash up = hash up'.
Proof.
  unfold LLM._build_cache_key. split.
  - intros Heq.
    change (pretty (hash sp) +:+ String ":" (pretty (hash up))
            = pretty (hash sp') +:+ String ":" (pretty (hash up'))) in Heq.
    apply append_separator_inj in Heq; try apply pretty_Z_lacks_colon.
    destruct Heq as [H1 H2].
    split; [exact (pretty_Z_inj _ _ H1) | exact (pretty_Z_inj _ _ H2)].
  - intros [-> ->]. reflexivity.
Qed.

End LLMFacts.

(** ** The message handler *)

Module MessageHandlerFacts.
Import MessageHandler.

(** C8: with a maximum length of at least 4 (the default is 1900),
    [_send_response] sends the mention, a line feed and the response text;
    a response longer than the maximum is sent cut to its first
    [max_len - 4] characters with the marker of three dots appended at the
    cut, [max_len - 1] characters in all and so within the maximum; a
    response within the maximum is sent unchanged. *)
Theorem send_response_truncates (max_len : Z) (mention response : string)
  (channel : list string) :
  (4 <= max_len)%Z ->
  let text := truncated max_len response in
  let cut := Str.take (Z.to_nat (max_len - 4)) response in
  _send_response max_len mention response channel
    = channel ++ [mention +:+ Str.nl +:+ text] /\
  ((max_len < Z.of_nat (String.length response))%Z ->
     text = cut +:+ "..." /\
     (exists rest, response = cut +:+ rest) /\
     Z.of_nat (String.length cut) = (max_len - 4)%Z /\
     Z.of_nat (String.length text) = (max_len - 1)%Z /\
     (Z.of_nat (String.length text) <= max_len)%Z) /\
  ((Z.of_nat (String.length response) <= max_len)%Z -> text = response).
Proof.
  intros Hmax text cut. split; [reflexivity|]. split.
  - intros Hlong.
    assert (Htext : text = cut +:+ "...").
    { unfold text, truncated.
      destruct (Z.ltb_spec max_len (Z.of_nat (String.length response)))
        as [_|Hle]; [|lia].
      unfold Str.slice_to.
      destruct (Z.ltb_spec (max_len - 4) 0) as [Hneg|_]; [lia | reflexivity]. }
    assert (Hcut : Z.of_nat (String.length cut) = (max_len - 4)%Z).
    { unfold cut. rewrite StrFacts.length_take. lia. }
    split; [exact Htext|]. split.
    + apply StrFacts.take_prefix. lia.
    + split; [exact Hcut|].
      assert (Hlen : Z.of_nat (String.length text) = (max_len - 1)%Z).
      { rewrite Htext, StrFacts.length_append.
        change (String.length "...") with 3%nat. lia. }
      split; [exact Hlen | lia].
  - intros Hshort. unfold text, truncated.
    destruct (Z.ltb_spec max_len (Z.of_nat (String.length response)))
      as [Hlt|_]; [lia | reflexivity].
Qed.

Lemma send_response_truncates_witness :
  Z.of_nat (String.length
              (truncated Config.MAX_MESSAGE_LENGTH (Mock.filler 2000)))
  = (Config.MAX_MESSAGE_LENGTH - 1)%Z.
Proof.
  apply (send_response_truncates Config.MAX_MESSAGE_LENGTH
           "<@42>" (Mock.filler 2000) []).
  - unfold Config.MAX_MESSAGE_LENGTH. lia.
  - vm_compute. reflexivity.
Defined.

(** ** The prompt of a message *)

Lemma mention_not_empty (bot_id : Z) :
  mention bot_id <> EmptyString /\ nick_mention bot_id <> EmptyString.
Proof. split; discriminate. Qed.


(** A message that holds neither form of the mention is only stripped. *)
Theorem extract_prompt_without_mention (content : string) (bot_id : Z) :
  Str.contains (mention bot_id) content = false ->
  Str.contains (nick_mention bot_id) content = false ->
  _extract_prompt content bot_id = Str.strip content.
Proof.
  intros H1 H2. unfold _extract_prompt.
  fold (mention bot_id) (nick_mention bot_id).
  destruct (mention_not_empty bot_id) as [Hm Hn].
  now rewrite (StrFacts.replace_absent _ _ _ Hm H1),
              (StrFacts.replace_absent _ _ _ Hn H2).
Qed.

(** A message that starts with the mention, in either form, and holds no
    other gives the rest of its text, stripped; the mention alone, with
    white space or without, gives the empty prompt. *)
Theorem extract_prompt_leading_mention (text : string) (bot_id : Z) :
  Str.contains (mention bot_id) text = false ->
  Str.contains (nick_mention bot_id) text = false ->
  _extract_prompt (mention bot_id +:+ text) bot_id = Str.strip text /\
  (Str.contains (mention bot_id) (nick_mention bot_id +:+ text) = false ->
   _extract_prompt (nick_mention bot_id +:+ text) bot_id = Str.strip text) /\
  (Str.all_space text = true ->
   _extract_prompt (mention bot_id +:+ text) bot_id = EmptyString).
Proof.
  intros H1 H2. destruct (mention_not_empty bot_id) as [Hm Hn].
  assert (Hlead : _extract_prompt (mention bot_id +:+ text) bot_id
                  = Str.strip text).
  { unfold _extract_prompt. fold (mention bot_id) (nick_mention bot_id).
    rewrite (StrFacts.replace_leading _ _ _ Hm).
    change (EmptyString +:+ Str.replace (mention bot_id) "" text)
      with (Str.replace (mention bot_id) "" text).
    now rewrite (StrFacts.replace_absent _ _ _ Hm H1),
                (StrFacts.replace_absent _ _ _ Hn H2). }
  split; [exact Hlead|]. split.
  - intros H3. unfold _extract_prompt.
    fold (mention bot_id) (nick_mention bot_id).
    rewrite (StrFacts.replace_absent _ _ _ Hm H3).
    rewrite (StrFacts.replace_leading _ _ _ Hn).
    change (EmptyString +:+ Str.replace (nick_mention bot_id) "" text)
      with (Str.replace (nick_mention bot_id) "" text).
    now rewrite (StrFacts.replace_absent _ _ _ Hn H2).
  - intros Hsp. rewrite Hlead. now apply StrFacts.strip_all_space.
Qed.

Lemma extract_prompt_without_mention_witness :
  _extract_prompt "  what time is it?  " 42 = "what time is it?".
Proof.
  rewrite (extract_prompt_without_mention "  what time is it?  " 42).
  - reflexivity.
  - reflexivity.
  - reflexivity.
Defined.

Lemma extract_prompt_leading_mention_witness :
  _extract_prompt (mention 42 +:+ " tell me a joke") 42 = "tell me a joke".
Proof.
  rewrite (proj1 (extract_prompt_leading_mention " tell me a joke" 42
                    eq_refl eq_refl)).
  reflexivity.
Defined.

(** ** The rate limit check of the handler *)

Lemma cooldown_state (now1 now2 now3 : Q) (key : string)
  (rl : RateLimit.RateLimiter) :
  snd (RateLimit.get_cooldown_seconds now1 now2 now3 key rl)
  = snd (RateLimit.is_allowed now1 key rl).
Proof.
  unfold RateLimit.get_cooldown_seconds.
  destruct (RateLimit.is_allowed now1 key rl) as [[|] rl1]; [reflexivity|].
  now destruct (RateLimit.newer_than _ _).
Qed.

(** The cases of the check when rate limiting is on. *)
Lemma check_rate_limits_cases (clk : nat -> Q) (user_id guild_id : string)
  (u g : RateLimit.RateLimiter) :
  let '(allowed, u', g') :=
    _check_rate_limits true clk user_id guild_id u g in
  let user_ok := fst (RateLimit.is_allowed (clk 0%nat) user_id u) in
  let u1 := snd (RateLimit.is_allowed (clk 0%nat) user_id u) in
  let guild_ok := fst (RateLimit.is_allowed (clk 1%nat) guild_id g) in
  let g1 := snd (RateLimit.is_allowed (clk 1%nat) guild_id g) in
  allowed = user_ok && guild_ok /\
  (user_ok = false ->
     g' = g /\ u' = snd (RateLimit.is_allowed (clk 1%nat) user_id u1)) /\
  (user_ok = true ->
     u' = u1 /\
     RateLimit.recorded user_id u'
     = RateLimit.newer_than (clk 0%nat - 60) (RateLimit.recorded user_id u)
       ++ [clk 0%nat]) /\
  (user_ok = true -> guild_ok = true -> g' = g1) /\
  (user_ok = true -> guild_ok = false ->
     g' = snd (RateLimit.is_allowed (clk 2%nat) guild_id g1)).
Proof.
  unfold _check_rate_limits. cbn [negb].
  pose proof (RateLimitFacts.is_allowed_records (clk 0%nat) user_id u) as Hrec.
  destruct (RateLimit.is_allowed (clk 0%nat) user_id u) as [[|] u1];
    cbn [negb fst snd] in *.
  - pose proof (cooldown_state (clk 2%nat) (clk 3%nat) (clk 4%nat) guild_id
                  (snd (RateLimit.is_allowed (clk 1%nat) guild_id g))) as Hcd.
    destruct (RateLimit.is_allowed (clk 1%nat) guild_id g) as [[|] g1];
      cbn [negb fst snd] in *.
    + repeat split; auto; discriminate.
    + destruct (RateLimit.get_cooldown_seconds _ _ _ guild_id g1) as [cd g2].
      cbn [snd] in Hcd. subst g2. repeat split; auto; discriminate.
  - pose proof (cooldown_state (clk 1%nat) (clk 2%nat) (clk 3%nat) user_id u1)
      as Hcd.
    destruct (RateLimit.get_cooldown_seconds _ _ _ user_id u1) as [cd u2].
    cbn [snd] in Hcd. subst u2. repeat split; auto; discriminate.
Qed.

(** With rate limiting on, a message is admitted exactly when the user's
    limiter and then the guild's accept it. A message the user's limiter
    rejects never reaches the guild's limiter, but the user's limiter is
    asked a second time, for the cooldown, and records a call if it then
    accepts. A message the guild's limiter rejects has already been
    recorded as a call of the user. With rate limiting off every message is
    admitted and both limiters are left alone. *)
Theorem check_rate_limits_outcome (clk : nat -> Q) (user_id guild_id : string)
  (u g : RateLimit.RateLimiter) :
  let '(allowed, u', g') :=
    _check_rate_limits true clk user_id guild_id u g in
  let user_ok := fst (RateLimit.is_allowed (clk 0%nat) user_id u) in
  let u1 := snd (RateLimit.is_allowed (clk 0%nat) user_id u) in
  let guild_ok := fst (RateLimit.is_allowed (clk 1%nat) guild_id g) in
  let g1 := snd (RateLimit.is_allowed (clk 1%nat) guild_id g) in
  allowed = user_ok && guild_ok /\
  (user_ok = false ->
     g' = g /\ u' = snd (RateLimit.is_allowed (clk 1%nat) user_id u1)) /\
  (user_ok = true ->
     u' = u1 /\
     RateLimit.recorded user_id u'
     = RateLimit.newer_than (clk 0%nat - 60) (RateLimit.recorded user_id u)
       ++ [clk 0%nat]) /\
  (user_ok = true -> guild_ok = true -> g' = g1) /\
  (user_ok = true -> guild_ok = false ->
     g' = snd (RateLimit.is_allowed (clk 2%nat) guild_id g1)) /\
  _check_rate_limits false clk user_id guild_id u g = (true, u, g).
Proof.
  pose proof (check_rate_limits_cases clk user_id guild_id u g) as H.
  destruct (_check_rate_limits true clk user_id guild_id u g)
    as [[allowed u'] g'].
  cbv zeta in *. destruct H as (H1 & H2 & H3 & H4 & H5).
  repeat split; auto; try apply H2; try apply H3; auto.
Qed.

Lemma pruned_idem (now : Q) (key : string) (rl : RateLimit.RateLimiter) :
  RateLimit.pruned now key (RateLimit.pruned now key rl)
  = RateLimit.pruned now key rl.
Proof.
  unfold RateLimit.pruned. cbn. f_equal. apply map_eq. intros k.
  destruct (decide (k = key)) as [->|Hne].
  - rewrite !lookup_alter_eq.
    destruct (RateLimit._call_times rl !! key) as [ts|]; [|reflexivity].
    cbn. now rewrite RateLimitFacts.newer_than_idem.
  - now rewrite !lookup_alter_ne by congruence.
Qed.

(** A rejected message is not counted: when every clock read of the check
    returns the same instant and the limit is at least 1, the limiter that
    rejects is left with its sequence for the key pruned and nothing
    recorded, and the other limiter is as the outcome above says. *)
Theorem check_rate_limits_rejection_only_prunes (now : Q)
  (user_id guild_id : string) (u g : RateLimit.RateLimiter) :
  (1 <= RateLimit.calls_per_minute u)%Z ->
  (1 <= RateLimit.calls_per_minute g)%Z ->
  let '(allowed, u', g') :=
    _check_rate_limits true (fun _ => now) user_id guild_id u g in
  (fst (RateLimit.is_allowed now user_id u) = false ->
     allowed = false /\ u' = RateLimit.pruned now user_id u /\ g' = g) /\
  (fst (RateLimit.is_allowed now user_id u) = true ->
   fst (RateLimit.is_allowed now guild_id g) = false ->
     allowed = false /\ g' = RateLimit.pruned now guild_id g).
Proof.
  intros Hu Hg.
  assert (Hagain : forall key rl,
    (1 <= RateLimit.calls_per_minute rl)%Z ->
    fst (RateLimit.is_allowed now key rl) = false ->
    snd (RateLimit.is_allowed now key (snd (RateLimit.is_allowed now key rl)))
    = RateLimit.pruned now key rl).
  { intros key rl Hpos Hb.
    rewrite (RateLimitFacts.is_allowed_rejected now key rl Hpos Hb).
    rewrite RateLimitFacts.is_allowed_rejected.
    - apply pruned_idem.
    - exact Hpos.
    - rewrite RateLimitFacts.is_allowed_decides in Hb |- *.
      now rewrite RateLimitFacts.recorded_pruned,
                  RateLimitFacts.newer_than_idem. }
  pose proof (check_rate_limits_cases (fun _ => now) user_id guild_id u g) as Hout.
  destruct (_check_rate_limits true (fun _ => now) user_id guild_id u g)
    as [[allowed u'] g'].
  destruct Hout as (Hall & Hrej & Hacc & Hboth & Hgrej).
  split.
  - intros Hb. destruct (Hrej Hb) as [-> ->]. rewrite Hall, Hb.
    repeat split. now apply Hagain.
  - intros Hb Hgb. rewrite Hall, Hb, Hgb. split; [reflexivity|].
    rewrite (Hgrej Hb Hgb). now apply Hagain.
Qed.

Lemma check_rate_limits_rejection_only_prunes_witness :
  let u := {| RateLimit.calls_per_minute := 1; RateLimit.min_interval := 60;
              RateLimit._last_call := {[ "7" := 4%Q ]};
              RateLimit._call_times := {[ "7" := [4%Q] ]} |} in
  let g := {| RateLimit.calls_per_minute := 2; RateLimit.min_interval := 30;
              RateLimit._last_call := ∅; RateLimit._call_times := ∅ |} in
  _check_rate_limits true (fun _ => 10%Q) "7" "dm" u g
  = (false, RateLimit.pruned 10 "7" u, g).
Proof.
  cbv zeta.
  pose proof (check_rate_limits_rejection_only_prunes 10 "7" "dm"
    {| RateLimit.calls_per_minute := 1; RateLimit.min_interval := 60;
       RateLimit._last_call := {[ "7" := 4%Q ]};
       RateLimit._call_times := {[ "7" := [4%Q] ]} |}
    {| RateLimit.calls_per_minute := 2; RateLimit.min_interval := 30;
       RateLimit._last_call := ∅; RateLimit._call_times := ∅ |}) as H.
  destruct (_check_rate_limits true (fun _ => 10%Q) "7" "dm" _ _)
    as [[allowed u'] g'].
  destruct H as [H _]; [cbn; lia | cbn; lia |].
  destruct H as (-> & -> & ->); reflexivity.
Defined.

(** ** The error notice *)

Lemma take_is_prefix (n : nat) (s : string) :
  exists rest, s = Str.take n s +:+ rest.
Proof.
  revert s. induction n as [|n IH]; intros s.
  - exists s. now destruct s.
  - destruct s as [|c s]; [now exists EmptyString|].
    destruct (IH s) as [rest Hrest]. exists rest.
    change (String c s = String c (Str.take n s +:+ rest)). now f_equal.
Qed.

Lemma take_all (n : nat) (s : string) :
  (String.length s <= n)%nat -> Str.take n s = s.
Proof.
  revert s. induction n as [|n IH]; intros [|c s] Hn; cbn in *;
    try reflexivity; [lia|].
  f_equal. apply IH. lia.
Qed.

(** With a maximum length of at least 50, the error text shown by
    [_send_error_message] is the beginning of the error text, has at most
    [max_len - 50] characters, and is the whole text when that fits. *)
Theorem error_display_bounded (max_len : Z) (error : string) :
  (50 <= max_len)%Z ->
  let shown := error_display max_len error in
  (exists rest, error = shown +:+ rest) /\
  (Z.of_nat (String.length shown) <= max_len - 50)%Z /\
  ((Z.of_nat (String.length error) <= max_len - 50)%Z -> shown = error).
Proof.
  intros Hmax shown.
  assert (Hs : shown = Str.take (Z.to_nat (max_len - 50)) error).
  { unfold shown, error_display, Str.slice_to.
    destruct (Z.ltb_spec (max_len - 50) 0); [lia | reflexivity]. }
  rewrite Hs. split; [apply take_is_prefix|]. split.
  - rewrite StrFacts.length_take. lia.
  - intros Hfit. apply take_all. lia.
Qed.

Lemma error_display_bounded_witness :
  (Z.of_nat (String.length
               (error_display Config.MAX_MESSAGE_LENGTH (Mock.filler 2000)))
   <= Config.MAX_MESSAGE_LENGTH - 50)%Z.
Proof.
  apply (error_display_bounded Config.MAX_MESSAGE_LENGTH (Mock.filler 2000)).
  unfold Config.MAX_MESSAGE_LENGTH. lia.
Defined.

(** ** Building the cog *)

(** The cog is built exactly when each limit is nonzero and small enough
    to be converted to a float, whether rate limiting is enabled or not.
    The user limiter is built first, so its exception wins: a division by
    zero when the user limit is 0, or when the user limiter is built and
    the guild limit is 0; an overflow error when the user limit is too
    large, or when the user limiter is built and the guild limit is too
    large. With the limits of [Config] the cog is built, with empty
    limiters and the service of [LLMService.__init__]. *)
Theorem new_cog_needs_usable_limits (per_user per_guild : Z) :
  ((exists cog, new_cog per_user per_guild = inr cog /\
      RateLimit.calls_per_minute (user_rate_limiter cog) = per_user /\
      RateLimit.calls_per_minute (guild_rate_limiter cog) = per_guild /\
      RateLimit._call_times (user_rate_limiter cog) = ∅ /\
      RateLimit._call_times (guild_rate_limiter cog) = ∅ /\
      llm_service cog = LLM.init)
   <-> (per_user <> 0 /\ Z.abs per_user < float_max_int)%Z /\
       (per_guild <> 0 /\ Z.abs per_guild < float_max_int)%Z) /\
  (new_cog per_user per_guild = inl RateLimit.ZeroDivisionError
   <-> per_user = 0%Z \/
       ((Z.abs per_user < float_max_int)%Z /\ per_guild = 0%Z)) /\
  (new_cog per_user per_guild = inl RateLimit.OverflowError
   <-> (float_max_int <= Z.abs per_user)%Z \/
       (per_user <> 0%Z /\ (float_max_int <= Z.abs per_guild)%Z)) /\
  (exists cog,
     new_cog Config.RATE_LIMIT_CALLS_PER_USER_PER_MINUTE
       Config.RATE_LIMIT_CALLS_PER_GUILD_PER_MINUTE = inr cog /\
     (RateLimit.min_interval (user_rate_limiter cog) == 12)%Q /\
     (RateLimit.min_interval (guild_rate_limiter cog) == 3)%Q).
Proof.
  pose proof RateLimitFacts.float_max_int_pos as Hmax.
  split; [|split; [|split]].
  4: { eexists. split; [reflexivity|]. split; vm_compute; reflexivity. }
  all: unfold new_cog; rewrite !RateLimitFacts.init_unfold.
  all: destruct (Z.leb_spec float_max_int (Z.abs per_user)) as [Hbu|Hfu];
    [|destruct (Z.eqb_spec per_user 0) as [Hu|Hu];
      [|destruct (Z.leb_spec float_max_int (Z.abs per_guild)) as [Hbg|Hfg];
        [|destruct (Z.eqb_spec per_guild 0) as [Hg|Hg]]]].
  all: split.
  all: try (intros (cog & H & _); discriminate).
  all: try discriminate.
  all: try (intros _; eexists; split; [reflexivity|]; cbn; auto; fail).
  all: try (intros _; reflexivity).
  all: try lia.
  all: try (intros _; lia).
Qed.

(** ** Handling a message *)

Section WithOutside.

Variable bot_id : Z.
Variables online_sign error_sign : string.
Variable send_fails : nat -> string -> option string.
Variable typing_fails : LLM.World -> option string.
Variable hash : string -> Z.
Variable provider : nat -> string -> string -> LLM.call.
Variable cfg : Settings.

Local Abbreviation send := (channel_send send_fails).
Local Abbreviation handle :=
  (_handle_mentioned_message bot_id online_sign send_fails typing_fails
     hash provider cfg).
Local Abbreviation on_msg :=
  (on_message bot_id online_sign error_sign send_fails typing_fails
     hash provider cfg).
Local Abbreviation prompt_of m := (_extract_prompt (content m) bot_id).
Local Abbreviation ask_for m cog o :=
  (LLM.ask hash provider (prompt_of m) None (llm_service cog) (net o)).

(** What one call of [channel.send] changes. *)
Lemma channel_send_effect (text : string) (o : Outside) :
  fst (send text o) = send_fails (sends o) text /\
  net (snd (send text o)) = net o /\
  sends (snd (send text o)) = S (sends o) /\
  channel (snd (send text o))
  = channel o ++ match send_fails (sends o) text with
                 | None => [text]
                 | Some _ => []
                 end.
Proof.
  unfold channel_send. destruct (send_fails (sends o) text); cbn;
    rewrite ?app_nil_r; auto.
Qed.

(** What [_handle_mentioned_message] does, case by case. *)
Lemma handle_cases (m : Message) (cog : Cog) (o : Outside) :
  handle m cog o =
  if negb (LLM.truthy (prompt_of m)) then
    (fst (send (greeting online_sign m) o), cog, snd (send (greeting online_sign m) o))
  else
    let cog1 := {| user_rate_limiter := snd (fst (admission cfg m cog o));
                   guild_rate_limiter := snd (admission cfg m cog o);
                   llm_service := llm_service cog |} in
    if negb (fst (fst (admission cfg m cog o))) then (None, cog1, o)
    else
      match typing typing_fails cfg o with
      | Some err => (Some err, cog1, o)
      | None =>
          let cog2 := {| user_rate_limiter := snd (fst (admission cfg m cog o));
                         guild_rate_limiter := snd (admission cfg m cog o);
                         llm_service := LLM.service (ask_for m cog o) |} in
          let o1 := {| net := LLM.world (ask_for m cog o);
                       channel := channel o; sends := sends o |} in
          match LLM.result (ask_for m cog o) with
          | inl e => (Some (str_exn e), cog2, o1)
          | inr response =>
              (fst (send (response_text cfg m response) o1), cog2,
               snd (send (response_text cfg m response) o1))
          end
      end.
Proof.
  unfold _handle_mentioned_message, admission, guild_key, typing.
  destruct (negb (LLM.truthy (prompt_of m))).
  - now destruct (send (greeting online_sign m) o).
  - destruct (_check_rate_limits _ _ _ _ _ _) as [[allowed u1] g1].
    cbn [fst snd]. destruct (negb allowed); [reflexivity|].
    destruct (if typing_indicator_enabled cfg then typing_fails (net o) else None);
      [reflexivity|].
    destruct (LLM.ask hash provider (prompt_of m) None (llm_service cog) (net o))
      as [[res svc] w1].
    unfold LLM.result, LLM.service, LLM.world. cbn [fst snd].
    destruct res as [e|response]; [reflexivity|].
    now destruct (send (response_text cfg m response) _).
Qed.

(** The handler delivers at most one text, and none when it raises. *)
Lemma handle_effect (m : Message) (cog : Cog) (o : Outside) :
  let err := fst (fst (handle m cog o)) in
  let o1 := snd (handle m cog o) in
  (sends o <= sends o1 <= sends o + 1)%nat /\
  exists extra, channel o1 = channel o ++ extra /\
                (length extra <= 1)%nat /\
                (err <> None -> extra = []).
Proof.
  rewrite handle_cases. cbv zeta.
  assert (Hsend : forall (text : string) (o0 : Outside) (cog0 : Cog),
    channel o0 = channel o -> sends o0 = sends o ->
    let r := (fst (send text o0), cog0, snd (send text o0)) in
    (sends o <= sends (snd r) <= sends o + 1)%nat /\
    exists extra, channel (snd r) = channel o ++ extra /\
                  (length extra <= 1)%nat /\
                  (fst (fst r) <> None -> extra = [])).
  { intros text o0 cog0 Hc Hs r. subst r. cbn [fst snd].
    destruct (channel_send_effect text o0) as (Hf & _ & Hn & Hch).
    rewrite Hn, Hch, Hf, Hc, Hs. split; [lia|].
    destruct (send_fails (sends o) text) as [err|].
    - exists []. repeat split; cbn; auto.
    - exists [text]. repeat split; cbn; [lia | congruence]. }
  assert (Hnone : forall (err : option string) (cog0 : Cog) (o0 : Outside),
    channel o0 = channel o -> sends o0 = sends o ->
    let r := (err, cog0, o0) in
    (sends o <= sends (snd r) <= sends o + 1)%nat /\
    exists extra, channel (snd r) = channel o ++ extra /\
                  (length extra <= 1)%nat /\
                  (fst (fst r) <> None -> extra = [])).
  { intros err cog0 o0 Hc Hs r. subst r. cbn [fst snd]. rewrite Hc, Hs.
    split; [lia|]. exists []. rewrite app_nil_r. repeat split; cbn; auto. }
  destruct (negb (LLM.truthy (prompt_of m))); [now apply Hsend|].
  destruct (negb (fst (fst (admission cfg m cog o)))); [now apply Hnone|].
  destruct (typing typing_fails cfg o); [now apply Hnone|].
  destruct (LLM.result (ask_for m cog o)) as [e|response];
    [now apply Hnone | now apply Hsend].
Qed.

(** [on_message] never raises and delivers at most one text per message:
    the channel grows by at most one text, after at most two calls of
    [channel.send]; a message of the bot itself, or one that does not
    mention it, changes nothing at all. *)
Theorem on_message_sends_at_most_one (m : Message) (cog : Cog) (o : Outside) :
  let r := on_msg m cog o in
  (exists extra, channel (snd r) = channel o ++ extra /\
                 (length extra <= 1)%nat) /\
  (sends o <= sends (snd r) <= sends o + 2)%nat /\
  (from_bot m = true \/ mentions_bot m = false -> r = (cog, o)).
Proof.
  intros r. subst r. unfold on_message.
  assert (Hsame : (exists extra, channel o = channel o ++ extra /\
                     (length extra <= 1)%nat) /\
                  (sends o <= sends o <= sends o + 2)%nat).
  { split; [|lia]. exists []. rewrite app_nil_r. split; [reflexivity | cbn; lia]. }
  destruct (from_bot m); [cbn [fst snd]; intuition|].
  destruct (mentions_bot m); cbn [negb]; [|cbn [fst snd]; intuition].
  pose proof (handle_effect m cog o) as H. cbv zeta in H.
  destruct (handle m cog o) as [[err cog1] o1]. cbn [fst snd] in H.
  destruct H as (Hs & extra & Hch & Hlen & Herr).
  split; [|split; [|intros [?|?]; discriminate]].
  - destruct err as [e|]; cbn [snd].
    + unfold _send_error_message.
      destruct (channel_send_effect (error_text error_sign cfg m e) o1)
        as (_ & _ & _ & Hch').
      rewrite Hch', Hch, (Herr ltac:(discriminate)), app_nil_r.
      destruct (send_fails (sends o1) _).
      * exists []. split; [reflexivity | cbn; lia].
      * eexists. split; [reflexivity | cbn; lia].
    + exists extra. auto.
  - destruct err as [e|]; cbn [snd]; [|lia].
    unfold _send_error_message.
    destruct (channel_send_effect (error_text error_sign cfg m e) o1)
      as (_ & _ & Hn & _).
    rewrite Hn. lia.
Qed.

(** The provider is never contacted for a message that is not admitted:
    for a message of the bot itself, one without a mention, one whose
    prompt is empty, or one the rate limit check rejects, [on_message]
    leaves the world of the completion client (its requests, waits and
    clock) and the service with its cache as they were. *)
Theorem no_completion_unless_admitted (m : Message) (cog : Cog) (o : Outside) :
  from_bot m = true \/ mentions_bot m = false \/
  LLM.truthy (prompt_of m) = false \/
  fst (fst (admission cfg m cog o)) = false ->
  net (snd (on_msg m cog o)) = net o /\
  llm_service (fst (on_msg m cog o)) = llm_service cog.
Proof.
  intros Hwhy. unfold on_message.
  destruct (from_bot m); [now cbn|].
  destruct (mentions_bot m); cbn [negb]; [|now cbn].
  destruct Hwhy as [?|[?|Hwhy]]; try discriminate.
  rewrite handle_cases. cbv zeta.
  assert (Herr : forall (err : option string) (cog0 : Cog) (o0 : Outside),
    net o0 = net o -> llm_service cog0 = llm_service cog ->
    net (snd (match err with
              | None => (cog0, o0)
              | Some e => (cog0, _send_error_message error_sign send_fails cfg m e o0)
              end)) = net o /\
    llm_service (fst (match err with
              | None => (cog0, o0)
              | Some e => (cog0, _send_error_message error_sign send_fails cfg m e o0)
              end)) = llm_service cog).
  { intros [e|] cog0 o0 Hn Hl; cbn [fst snd]; [|auto].
    unfold _send_error_message.
    destruct (channel_send_effect (error_text error_sign cfg m e) o0)
      as (_ & Hn' & _). rewrite Hn'. auto. }
  destruct Hwhy as [Hp|Hr].
  - rewrite Hp. cbn [negb]. apply Herr; [|reflexivity].
    now destruct (channel_send_effect (greeting online_sign m) o) as (_ & Hn & _).
  - destruct (negb (LLM.truthy (prompt_of m))).
    + apply Herr; [|reflexivity].
      now destruct (channel_send_effect (greeting online_sign m) o) as (_ & Hn & _).
    + rewrite Hr. cbn [negb]. now cbn.
Qed.

(** A rate limited message is met with silence: when the message mentions
    the bot with a prompt and the rate limit check rejects it, nothing is
    sent, no request is made, and only the rate limiters change. *)
Theorem rate_limited_is_silent (m : Message) (cog : Cog) (o : Outside) :
  from_bot m = false ->
  mentions_bot m = true ->
  LLM.truthy (prompt_of m) = true ->
  fst (fst (admission cfg m cog o)) = false ->
  snd (on_msg m cog o) = o /\
  llm_service (fst (on_msg m cog o)) = llm_service cog /\
  user_rate_limiter (fst (on_msg m cog o)) = snd (fst (admission cfg m cog o)) /\
  guild_rate_limiter (fst (on_msg m cog o)) = snd (admission cfg m cog o).
Proof.
  intros Hb Hm Hp Hr. unfold on_message. rewrite Hb, Hm. cbn [negb].
  rewrite handle_cases. cbv zeta. rewrite Hp, Hr. cbn. auto.
Qed.

(** An admitted message gets its answer or an error notice: when the
    message is admitted and the typing indicator does not fail, [ask] is
    called once with the extracted prompt; its answer is sent as
    [_send_response] sends it, an exception of [ask] is sent as an error
    notice, and when sending the answer fails the error notice tells of
    that failure. A notice that cannot be sent is dropped. *)
Theorem on_message_answers (m : Message) (cog : Cog) (o : Outside) :
  from_bot m = false ->
  mentions_bot m = true ->
  LLM.truthy (prompt_of m) = true ->
  fst (fst (admission cfg m cog o)) = true ->
  typing typing_fails cfg o = None ->
  let a := ask_for m cog o in
  let r := on_msg m cog o in
  let notice := fun (e : string) (n : nat) =>
    match send_fails n (error_text error_sign cfg m e) with
    | None => [error_text error_sign cfg m e]
    | Some _ => []
    end in
  net (snd r) = LLM.world a /\
  llm_service (fst r) = LLM.service a /\
  match LLM.result a with
  | inr response =>
      match send_fails (sends o) (response_text cfg m response) with
      | None =>
          channel (snd r)
          = _send_response (max_message_length cfg) (author_mention m)
              response (channel o)
      | Some err => channel (snd r) = channel o ++ notice err (S (sends o))
      end
  | inl e => channel (snd r) = channel o ++ notice (str_exn e) (sends o)
  end.
Proof.
  intros Hb Hm Hp Hr Ht a r notice. subst a r notice.
  unfold on_message. rewrite Hb, Hm. cbn [negb].
  rewrite handle_cases. cbv zeta. rewrite Hp, Hr, Ht. cbn [negb].
  destruct (LLM.result (ask_for m cog o)) as [e|response].
  - cbn [fst snd]. unfold _send_error_message.
    destruct (channel_send_effect (error_text error_sign cfg m (str_exn e))
                {| net := LLM.world (ask_for m cog o);
                   channel := channel o; sends := sends o |})
      as (_ & Hn & _ & Hch).
    rewrite Hn, Hch. cbn. auto.
  - destruct (channel_send_effect (response_text cfg m response)
                {| net := LLM.world (ask_for m cog o);
                   channel := channel o; sends := sends o |})
      as (Hf & Hn & Hs & Hch).
    cbn [net channel sends] in *.
    destruct (send (response_text cfg m response) _) as [err o2].
    cbn [fst snd] in *. subst err.
    destruct (send_fails (sends o) (response_text cfg m response)) as [err|].
    + cbn [fst snd]. unfold _send_error_message.
      destruct (channel_send_effect (error_text error_sign cfg m err) o2)
        as (_ & Hn' & _ & Hch').
      rewrite Hn', Hch', Hn, Hch, Hs, app_nil_r. cbn. auto.
    + cbn [fst snd]. rewrite Hn, Hch. cbn. auto.
Qed.

End WithOutside.

Lemma no_completion_unless_admitted_witness :
  net (snd (on_message MockBot.bot_id "" "!" MockBot.delivers MockBot.typing_ok
              Mock.hash (Mock.always (LLM.Response [Some "pong"])) configured
              (MockBot.asks "<@42>") (MockBot.cog []) MockBot.start))
  = net MockBot.start.
Proof.
  apply (no_completion_unless_admitted MockBot.bot_id "" "!" MockBot.delivers
           MockBot.typing_ok Mock.hash
           (Mock.always (LLM.Response [Some "pong"])) configured
           (MockBot.asks "<@42>") (MockBot.cog []) MockBot.start).
  right. right. left. reflexivity.
Defined.

Lemma rate_limited_is_silent_witness :
  snd (on_message MockBot.bot_id "" "!" MockBot.delivers MockBot.typing_ok
         Mock.hash (Mock.always (LLM.Response [Some "pong"])) configured
         (MockBot.asks "<@42> hi") (MockBot.cog [0%Q]) MockBot.start)
  = MockBot.start.
Proof.
  apply (rate_limited_is_silent MockBot.bot_id "" "!" MockBot.delivers
           MockBot.typing_ok Mock.hash
           (Mock.always (LLM.Response [Some "pong"])) configured
           (MockBot.asks "<@42> hi") (MockBot.cog [0%Q]) MockBot.start).
  - reflexivity.
  - reflexivity.
  - reflexivity.
  - reflexivity.
Defined.

Lemma on_message_answers_witness :
  net (snd (on_message MockBot.bot_id "" "!" MockBot.delivers MockBot.typing_ok
              Mock.hash (Mock.always (LLM.Response [Some " pong "])) configured
              (MockBot.asks "<@42> hi") (MockBot.cog []) MockBot.start))
  = LLM.world (LLM.ask Mock.hash (Mock.always (LLM.Response [Some " pong "]))
                 (_extract_prompt "<@42> hi" MockBot.bot_id) None
                 LLM.init Mock.start).
Proof.
  apply (on_message_answers MockBot.bot_id "" "!" MockBot.delivers
           MockBot.typing_ok Mock.hash
           (Mock.always (LLM.Response [Some " pong "])) configured
           (MockBot.asks "<@42> hi") (MockBot.cog []) MockBot.start).
  - reflexivity.
  - reflexivity.
  - reflexivity.
  - reflexivity.
  - reflexivity.
Defined.

(** The whole path on one message: a mention with a prompt, admitted and
    answered, is delivered as the mention of the author, a line feed and
    the trimmed answer. *)
Example on_message_delivers_answer :
  channel (snd (on_message MockBot.bot_id "" "!" MockBot.delivers
                  MockBot.typing_ok Mock.hash
                  (Mock.always (LLM.Response [Some " pong "])) configured
                  (MockBot.asks "<@42> hi") (MockBot.cog []) MockBot.start))
  = ["<@7>" +:+ Str.nl +:+ "pong"].
Proof. vm_compute. reflexivity. Qed.

End MessageHandlerFacts.
